(** * upyt.connection: timeout-bounded byte streams to a MicroPython instance

    A shallow embedding of [upyt/connection.py] and the properties of its
    pipe-backed connection ([SubprocessConnection]), of the scoped timeout
    override and of the context-manager protocol of [Connection].

    Modelling conventions.
    - Python methods are functions in a state-and-exception monad [M W]
      over a world [W]: the fields of the Python object together with the
      part of the operating system the object talks to.
    - Time ([time.monotonic()], timeouts) is counted in integer ticks of an
      arbitrary resolution; Python uses floating-point seconds, whose
      rounding is not modelled.
    - The child's standard output is the list of the bytes it will write,
      each with the time at which it reaches the pipe.  The object
      [self._process.stdout] is the pipe itself when the caller gave
      [bufsize=0], and otherwise (the constructor does not set [bufsize])
      a buffered reader: its [read(1)] moves what the pipe holds into a
      buffer of its own, which [select] does not see.  The input pipe
      object may be buffered or not.
    - The selector refuses a wait longer than [select_limit] with
      [OverflowError] (with epoll, 2**31 - 1 milliseconds); a timeout of
      [inf] is such a wait.
    - Time spent computing between two library calls is drawn from the
      oracle [delays]; an empty oracle is the idealised world in which only
      blocking calls take time.
    - A [select] whose wait expires at the very instant a byte arrives
      reports nothing.
    - Loops are unrolled with a fuel bound; running out of fuel is the
      outcome [OutOfFuel] and is never confused with a returned value. *)

From Stdlib Require Import Strings.String.
From Stdlib Require Import ZArith List Bool Lia.
From Stdlib Require Import Strings.Byte.
Import ListNotations.
Local Open Scope Z_scope.

(** ** Bytes *)

Definition bytes := list byte.

Fixpoint bytes_eqb (a b : bytes) : bool :=
  match a, b with
  | [], [] => true
  | x :: a', y :: b' => Byte.eqb x y && bytes_eqb a' b'
  | _, _ => false
  end.

(** [out.endswith(ending)] *)
Definition endswith (out ending : bytes) : bool :=
  (length ending <=? length out)%nat
  && bytes_eqb (skipn (length out - length ending) out) ending.

(** The truth value of a bytes object: [b""] is falsy. *)
Definition truthy (data : bytes) : bool :=
  match data with [] => false | _ :: _ => true end.

(** ** Outcomes and the monad of Python method bodies *)

Inductive exn : Type :=
| NotImplementedError
| BrokenPipeError
| OverflowError
| OtherError (tag : nat).

Inductive outcome (A : Type) : Type :=
| Ok (a : A)          (* the call returned [a] *)
| Raise (e : exn)     (* the call raised [e] *)
| Blocked             (* the call blocks for ever *)
| OutOfFuel.          (* the unrolling bound of the model was reached *)

Arguments Ok {A} a.
Arguments Raise {A} e.
Arguments Blocked {A}.
Arguments OutOfFuel {A}.

Definition M (W A : Type) : Type := W -> outcome A * W.

Definition ret {W A} (a : A) : M W A := fun w => (Ok a, w).

Definition raise {W A} (e : exn) : M W A := fun w => (Raise e, w).

Definition bind {W A B} (c : M W A) (k : A -> M W B) : M W B :=
  fun w =>
    match c w with
    | (Ok a, w1) => k a w1
    | (Raise e, w1) => (Raise e, w1)
    | (Blocked, w1) => (Blocked, w1)
    | (OutOfFuel, w1) => (OutOfFuel, w1)
    end.

Declare Scope py_scope.
Delimit Scope py_scope with py.
Notation "x <- c ;; k" := (bind c (fun x => k))
  (at level 100, c at next level, right associativity) : py_scope.
Notation "c ;; k" := (bind c (fun _ => k))
  (at level 100, right associativity) : py_scope.
Local Open Scope py_scope.

(** [try: body  except E: handler], where [handler e] is [None] for an
    exception the clause does not catch. *)
Definition try_except {W A} (body : M W A) (handler : exn -> option (M W A)) : M W A :=
  fun w =>
    match body w with
    | (Raise e, w1) =>
        match handler e with
        | Some h => h w1
        | None => (Raise e, w1)
        end
    | r => r
    end.

(** [try: body  finally: final].  The final block runs on both ways out of
    the body; an exception of its own replaces the pending outcome. *)
Definition try_finally {W A} (body : M W A) (final : M W unit) : M W A :=
  fun w =>
    match body w with
    | (Ok a, w1) => (_ <- final ;; ret a) w1
    | (Raise e, w1) => (_ <- final ;; raise e) w1
    | r => r
    end.

(** [with mgr as x: body], for a manager given by its [__enter__] and
    [__exit__]; [__exit__] receives the pending exception, if any, and its
    truth value says whether that exception is swallowed. *)
Definition with_stmt {W A} (enter : M W A) (exit : option exn -> M W bool)
    (body : A -> M W unit) : M W unit :=
  x <- enter ;;
  fun w =>
    match body x w with
    | (Ok _, w1) => (_ <- exit None ;; ret tt) w1
    | (Raise e, w1) =>
        (swallow <- exit (Some e) ;; if swallow : bool then ret tt else raise e) w1
    | r => r
    end.

(** ** The class [Connection]

    An object is the record of its bound methods. *)

Record Connection (W : Type) : Type := mkConnection {
  read : Z -> M W bytes;
  read_until : bytes -> M W bytes;
  read_buffered : M W bytes;
  write : bytes -> M W nat;
  close : M W unit;
  get_timeout : M W Z;
  set_timeout : Z -> M W unit
}.

Arguments mkConnection {W}.
Arguments read {W}.
Arguments read_until {W}.
Arguments read_buffered {W}.
Arguments write {W}.
Arguments close {W}.
Arguments get_timeout {W}.
Arguments set_timeout {W}.

(** The base class: every abstract method raises [NotImplementedError]. *)
Definition AbstractConnection (W : Type) : Connection W :=
  mkConnection
    (fun _ => raise NotImplementedError)
    (fun _ => raise NotImplementedError)
    (raise NotImplementedError)
    (fun _ => raise NotImplementedError)
    (raise NotImplementedError)
    (raise NotImplementedError)
    (fun _ => raise NotImplementedError).

(** [Connection.__enter__] *)
Definition enter__ {W} (self : Connection W) : M W (Connection W) :=
  ret self.

(** [Connection.__exit__]: closes, and returns [None] (falsy). *)
Definition exit__ {W} (self : Connection W) (_exc : option exn) : M W bool :=
  close self ;; ret false.

(** [with self as c: body] *)
Definition with_connection {W} (self : Connection W)
    (body : Connection W -> M W unit) : M W unit :=
  with_stmt (enter__ self) (exit__ self) body.

(** [with self.timeout_override(value): body].  The generator behind
    [@contextmanager] is run up to its [yield] on entry and resumed (or
    thrown into) on exit, which makes the block the body of the [try]. *)
Definition timeout_override {W A} (self : Connection W) (value : Z)
    (body : M W A) : M W A :=
  old_timeout <- get_timeout self ;;
  try_finally (set_timeout self value ;; body) (set_timeout self old_timeout).

(** ** The class [SerialConnection]

    The serial port is an object of the [serial] package, which is not
    part of this code: it is taken as the record of the methods and
    properties that the connection uses. *)

Record Serial (W : Type) : Type := mkSerial {
  ser_read : Z -> M W bytes;
  ser_read_until : bytes -> M W bytes;
  ser_in_waiting : M W nat;
  ser_write : bytes -> M W nat;
  ser_close : M W unit;
  ser_timeout : M W Z;
  ser_timeout_setter : Z -> M W unit
}.

Arguments mkSerial {W}.
Arguments ser_read {W}.
Arguments ser_read_until {W}.
Arguments ser_in_waiting {W}.
Arguments ser_write {W}.
Arguments ser_close {W}.
Arguments ser_timeout {W}.
Arguments ser_timeout_setter {W}.

Module SerialConnection.

Section WithPort.

Context {W : Type} (_ser : Serial W).

Definition read (num_bytes : Z) : M W bytes := ser_read _ser num_bytes.

Definition read_until (data : bytes) : M W bytes := ser_read_until _ser data.

(** [in_waiting] is a property: it is evaluated for the test and again
    for the argument of [read]. *)
Definition read_buffered : M W bytes :=
  n <- ser_in_waiting _ser ;;
  match n with
  | S _ => m <- ser_in_waiting _ser ;; ser_read _ser (Z.of_nat m)
  | O => ret []
  end.

Definition write (data : bytes) : M W nat := ser_write _ser data.

Definition close : M W unit := ser_close _ser.

Definition timeout : M W Z := ser_timeout _ser.

Definition timeout_setter (value : Z) : M W unit := ser_timeout_setter _ser value.

Definition new : Connection W :=
  mkConnection read read_until read_buffered write close timeout timeout_setter.

End WithPort.

End SerialConnection.

(** ** The world of a pipe-backed connection *)

(** What the connection asked of the interpreter and of the operating
    system, in the order of the calls. *)
Inductive event : Type :=
| EvMonotonic (t : Z)
    (* [time.monotonic()] returned [t] *)
| EvSelect (wait started returned : Z) (ready : bool)
    (* [sel.select(wait)], called at [started], back at [returned] *)
| EvSelectRefused (wait called : Z)
    (* [sel.select(wait)], called at [called], raised [OverflowError] *)
| EvRead (size : nat) (started returned : Z) (data : bytes)
    (* [stdout.read(size)] *)
| EvWrite (data : bytes)
| EvFlush
| EvKill
| EvWait.

(** The object [self._process.stdout].  [Popen] makes it the pipe itself
    when it is given [bufsize=0]; otherwise, and so when the caller of
    the constructor says nothing of [bufsize], it is an [io.BufferedReader]
    in front of the pipe, with a buffer of [size] bytes of which [held]
    were read from the pipe and not yet handed out. *)
Inductive reader : Type :=
| RawReader
| BufferedReader (size : nat) (held : bytes).

Record World : Type := mkWorld {
  clock : Z;                      (* the monotonic clock *)
  delays : list N;                (* time taken before each coming library call *)
  select_limit : Z;               (* the longest wait the selector accepts *)
  stdout_pipe : list (Z * byte);  (* unread output of the child, with arrival times *)
  stdout_eof : option Z;          (* when the child closes its output, if ever *)
  stdout : reader;                (* [self._process.stdout] *)
  child_exited : bool;            (* the child is gone: its input pipe is broken *)
  stdin_buffered : bool;          (* [stdin] is a buffered writer *)
  stdin_buffer : bytes;           (* written, not yet flushed *)
  stdin_room : nat;               (* what a raw write accepts at once *)
  stdin_received : bytes;         (* what reached the child *)
  _timeout : Z;                   (* [self._timeout] *)
  log : list event
}.

Definition set_clock (c : Z) (w : World) : World :=
  mkWorld c (delays w) (select_limit w) (stdout_pipe w) (stdout_eof w) (stdout w)
    (child_exited w) (stdin_buffered w) (stdin_buffer w) (stdin_room w) (stdin_received w)
    (_timeout w) (log w).

Definition set_delays (ds : list N) (w : World) : World :=
  mkWorld (clock w) ds (select_limit w) (stdout_pipe w) (stdout_eof w) (stdout w)
    (child_exited w) (stdin_buffered w) (stdin_buffer w) (stdin_room w) (stdin_received w)
    (_timeout w) (log w).

Definition set_select_limit (l : Z) (w : World) : World :=
  mkWorld (clock w) (delays w) l (stdout_pipe w) (stdout_eof w) (stdout w)
    (child_exited w) (stdin_buffered w) (stdin_buffer w) (stdin_room w) (stdin_received w)
    (_timeout w) (log w).

Definition set_stdout_pipe (p : list (Z * byte)) (w : World) : World :=
  mkWorld (clock w) (delays w) (select_limit w) p (stdout_eof w) (stdout w)
    (child_exited w) (stdin_buffered w) (stdin_buffer w) (stdin_room w) (stdin_received w)
    (_timeout w) (log w).

Definition set_stdout_eof (e : option Z) (w : World) : World :=
  mkWorld (clock w) (delays w) (select_limit w) (stdout_pipe w) e (stdout w)
    (child_exited w) (stdin_buffered w) (stdin_buffer w) (stdin_room w) (stdin_received w)
    (_timeout w) (log w).

Definition set_stdout (r : reader) (w : World) : World :=
  mkWorld (clock w) (delays w) (select_limit w) (stdout_pipe w) (stdout_eof w) r
    (child_exited w) (stdin_buffered w) (stdin_buffer w) (stdin_room w) (stdin_received w)
    (_timeout w) (log w).

Definition set_child_exited (b : bool) (w : World) : World :=
  mkWorld (clock w) (delays w) (select_limit w) (stdout_pipe w) (stdout_eof w) (stdout w)
    b (stdin_buffered w) (stdin_buffer w) (stdin_room w) (stdin_received w)
    (_timeout w) (log w).

Definition set_stdin_buffered (b : bool) (w : World) : World :=
  mkWorld (clock w) (delays w) (select_limit w) (stdout_pipe w) (stdout_eof w) (stdout w)
    (child_exited w) b (stdin_buffer w) (stdin_room w) (stdin_received w)
    (_timeout w) (log w).

Definition set_stdin_buffer (b : bytes) (w : World) : World :=
  mkWorld (clock w) (delays w) (select_limit w) (stdout_pipe w) (stdout_eof w) (stdout w)
    (child_exited w) (stdin_buffered w) b (stdin_room w) (stdin_received w)
    (_timeout w) (log w).

Definition set_stdin_received (b : bytes) (w : World) : World :=
  mkWorld (clock w) (delays w) (select_limit w) (stdout_pipe w) (stdout_eof w) (stdout w)
    (child_exited w) (stdin_buffered w) (stdin_buffer w) (stdin_room w) b
    (_timeout w) (log w).

Definition set__timeout (t : Z) (w : World) : World :=
  mkWorld (clock w) (delays w) (select_limit w) (stdout_pipe w) (stdout_eof w) (stdout w)
    (child_exited w) (stdin_buffered w) (stdin_buffer w) (stdin_room w) (stdin_received w)
    t (log w).

Definition emit (e : event) (w : World) : World :=
  mkWorld (clock w) (delays w) (select_limit w) (stdout_pipe w) (stdout_eof w) (stdout w)
    (child_exited w) (stdin_buffered w) (stdin_buffer w) (stdin_room w) (stdin_received w)
    (_timeout w) (log w ++ [e]).

(** *** Library calls *)

(** The time the program spends before its next library call. *)
Definition tick (w : World) : World :=
  match delays w with
  | [] => w
  | d :: ds => set_delays ds (set_clock (clock w + Z.of_N d) w)
  end.

(** [time.monotonic()] *)
Definition monotonic : M World Z :=
  fun w0 =>
    let w := tick w0 in
    (Ok (clock w), emit (EvMonotonic (clock w)) w).

(** The time at which the child's output next becomes readable: the
    arrival of its next byte or, once all were read, the end of file. *)
Definition next_readable (w : World) : option Z :=
  match stdout_pipe w with
  | (t, _) :: _ => Some t
  | [] => stdout_eof w
  end.

(** The wait of [sel.select(wait)] on the pipe of the child's output,
    once the selector has accepted [wait]; the result is the truth value
    of the list of ready keys.  The selector watches the pipe: what a
    buffered reader holds is out of its sight.  A wait that is not
    positive polls.  A byte that arrives at the very instant of expiry is
    not reported. *)
Definition select_wait (wait : Z) : M World bool :=
  fun w =>
    let c := clock w in
    let expiry := Z.max c (c + wait) in
    match next_readable w with
    | Some t =>
        if t <=? c then (Ok true, emit (EvSelect wait c c true) w)
        else if t <? c + wait then
          (Ok true, emit (EvSelect wait c t true) (set_clock t w))
        else (Ok false, emit (EvSelect wait c expiry false) (set_clock expiry w))
    | None => (Ok false, emit (EvSelect wait c expiry false) (set_clock expiry w))
    end.

(** [sel.select(wait)] with the child's output registered for reading.  A
    positive wait beyond what the selector accepts raises [OverflowError]
    before anything is waited for. *)
Definition select (wait : Z) : M World bool :=
  fun w0 =>
    let w := tick w0 in
    if (0 <? wait) && (select_limit w <? wait) then
      (Raise OverflowError, emit (EvSelectRefused wait (clock w)) w)
    else select_wait wait w.

(** The bytes at the head of the pipe that have arrived by [c], at most
    [size] of them, and the rest of the pipe. *)
Fixpoint take_arrived (size : nat) (c : Z) (p : list (Z * byte))
    : bytes * list (Z * byte) :=
  match size, p with
  | S k, (t, b) :: rest =>
      if t <=? c then
        let (bs, r) := take_arrived k c rest in (b :: bs, r)
      else ([], p)
  | _, _ => ([], p)
  end.

(** One read of at most [size] bytes ([size > 0]) from the pipe itself,
    started at [c]: it waits for the first byte (or the end of file) and
    takes what is there.  The result is the bytes taken, the rest of the
    pipe and the time of the return; [None] when the read never
    returns. *)
Definition pipe_read (size : nat) (c : Z) (p : list (Z * byte)) (eof : option Z)
    : option (bytes * list (Z * byte) * Z) :=
  match p with
  | (t, _) :: _ =>
      let c' := Z.max c t in
      let (bs, rest) := take_arrived size c' p in
      Some (bs, rest, c')
  | [] =>
      match eof with
      | Some t => Some ([], [], Z.max c t)
      | None => None
      end
  end.

(** [read(size)] on the pipe itself: a single read of the pipe; [b""] at
    the end of file. *)
Definition raw_read (size : nat) : M World bytes :=
  fun w =>
    let c := clock w in
    match size with
    | O => (Ok [], emit (EvRead size c c []) w)
    | S _ =>
        match pipe_read size c (stdout_pipe w) (stdout_eof w) with
        | Some (bs, rest, c') =>
            (Ok bs, emit (EvRead size c c' bs) (set_stdout_pipe rest (set_clock c' w)))
        | None => (Blocked, w)
        end
    end.

(** What [read(size)] on a buffered reader hands out, byte after byte:
    from the buffer while it holds something; when it is empty, after one
    read of the pipe that fills it with what is there, at most the size
    [cap] of the buffer.  It goes on until it has [size] bytes or the
    stream ends.  The result is the bytes handed out, the bytes left in
    the buffer, the rest of the pipe and the time of the return.  For a
    request of one byte, the only one the methods make, this is what
    CPython does; for a longer request CPython hands out the same bytes
    and may have read less or more ahead. *)
Fixpoint buffered_take (size cap : nat) (c : Z) (held : bytes)
    (p : list (Z * byte)) (eof : option Z)
    : option (bytes * bytes * list (Z * byte) * Z) :=
  match size with
  | O => Some ([], held, p, c)
  | S size' =>
      match held with
      | b :: held' =>
          match buffered_take size' cap c held' p eof with
          | Some (bs, h, rest, c') => Some (b :: bs, h, rest, c')
          | None => None
          end
      | [] =>
          match pipe_read (Nat.max 1 cap) c p eof with
          | Some (b :: chunk, rest, c1) =>
              match buffered_take size' cap c1 chunk rest eof with
              | Some (bs, h, rest', c') => Some (b :: bs, h, rest', c')
              | None => None
              end
          | Some ([], rest, c1) => Some ([], [], rest, c1)
          | None => None
          end
      end
  end.

(** [read(size)] on a buffered reader that holds [held]. *)
Definition buffered_read (size cap : nat) (held : bytes) : M World bytes :=
  fun w =>
    let c := clock w in
    match buffered_take size cap c held (stdout_pipe w) (stdout_eof w) with
    | Some (bs, held', rest, c') =>
        (Ok bs,
         emit (EvRead size c c' bs)
           (set_stdout (BufferedReader cap held') (set_stdout_pipe rest (set_clock c' w))))
    | None => (Blocked, w)
    end.

(** [self._process.stdout.read(size)] *)
Definition stdout_read (size : nat) : M World bytes :=
  fun w0 =>
    let w := tick w0 in
    match stdout w with
    | RawReader => raw_read size w
    | BufferedReader cap held => buffered_read size cap held w
    end.

(** [self._process.stdin.write(data)] *)
Definition stdin_write (data : bytes) : M World nat :=
  fun w =>
    let w1 := emit (EvWrite data) w in
    if stdin_buffered w then
      (Ok (length data), set_stdin_buffer (stdin_buffer w ++ data) w1)
    else if child_exited w && truthy data then (Raise BrokenPipeError, w1)
    else
      let k := Nat.min (length data) (stdin_room w) in
      (Ok k, set_stdin_received (stdin_received w ++ firstn k data) w1).

(** [self._process.stdin.flush()] *)
Definition stdin_flush : M World unit :=
  fun w =>
    let w1 := emit EvFlush w in
    match stdin_buffer w with
    | [] => (Ok tt, w1)
    | _ :: _ =>
        if child_exited w then (Raise BrokenPipeError, w1)
        else
          (Ok tt, set_stdin_buffer [] (set_stdin_received (stdin_received w ++ stdin_buffer w) w1))
    end.

(** [self._process.kill()]: the child writes nothing more. *)
Definition kill : M World unit :=
  fun w =>
    let w1 := emit EvKill w in
    if child_exited w then (Ok tt, w1)
    else
      let c := clock w in
      let eof := match stdout_eof w with Some t => Z.min t c | None => c end in
      (Ok tt,
       set_child_exited true
         (set_stdout_eof (Some eof)
            (set_stdout_pipe (filter (fun p => fst p <=? c) (stdout_pipe w)) w1))).

(** [self._process.wait()] *)
Definition wait : M World unit :=
  fun w => (Ok tt, emit EvWait w).

(** ** The class [SubprocessConnection] *)

Module SubprocessConnection.

(** The loop of [read], with [end_time] already computed and [out] the
    bytes gathered so far:
    [while len(out) < num_bytes and (now := time.monotonic()) < end_time
           and sel.select(end_time - now) and (data := stdout.read(1)):
         out += data] *)
Fixpoint read_loop (fuel : nat) (num_bytes end_time : Z) (out : bytes)
    : M World bytes :=
  match fuel with
  | O => fun w => (OutOfFuel, w)
  | S fuel' =>
      if Z.of_nat (length out) <? num_bytes then
        now <- monotonic ;;
        if now <? end_time then
          ready <- select (end_time - now) ;;
          if ready then
            data <- stdout_read 1 ;;
            if truthy data then read_loop fuel' num_bytes end_time (out ++ data)
            else ret out
          else ret out
        else ret out
      else ret out
  end.

(** [read].  The selector that the method creates, registers the child's
    output with and closes on the way out is the one [select] stands for. *)
Definition read (fuel : nat) (num_bytes : Z) : M World bytes :=
  start <- monotonic ;;
  fun w =>
    let end_time := start + _timeout w in
    read_loop fuel num_bytes end_time [] w.

(** The loop of [read_until]:
    [while not out.endswith(ending) and (now := time.monotonic()) < end_time
           and sel.select(end_time - now) and (data := stdout.read(1)):
         out += data] *)
Fixpoint read_until_loop (fuel : nat) (ending : bytes) (end_time : Z)
    (out : bytes) : M World bytes :=
  match fuel with
  | O => fun w => (OutOfFuel, w)
  | S fuel' =>
      if negb (endswith out ending) then
        now <- monotonic ;;
        if now <? end_time then
          ready <- select (end_time - now) ;;
          if ready then
            data <- stdout_read 1 ;;
            if truthy data then read_until_loop fuel' ending end_time (out ++ data)
            else ret out
          else ret out
        else ret out
      else ret out
  end.

Definition read_until (fuel : nat) (ending : bytes) : M World bytes :=
  start <- monotonic ;;
  fun w =>
    let end_time := start + _timeout w in
    read_until_loop fuel ending end_time [] w.

(** The loop of [read_buffered]:
    [while sel.select(0) and (data := stdout.read(1)): out += data] *)
Fixpoint read_buffered_loop (fuel : nat) (out : bytes) : M World bytes :=
  match fuel with
  | O => fun w => (OutOfFuel, w)
  | S fuel' =>
      ready <- select 0 ;;
      if ready then
        data <- stdout_read 1 ;;
        if truthy data then read_buffered_loop fuel' (out ++ data)
        else ret out
      else ret out
  end.

Definition read_buffered (fuel : nat) : M World bytes :=
  read_buffered_loop fuel [].

Definition write (data : bytes) : M World nat :=
  try_except
    (written <- stdin_write data ;;
     stdin_flush ;;
     ret written)
    (fun e =>
       match e with
       | BrokenPipeError => Some (ret 0%nat)
       | _ => None
       end).

Definition close : M World unit :=
  kill ;; wait.

(** The property [timeout] and its setter. *)
Definition timeout : M World Z :=
  fun w => (Ok (_timeout w), w).

Definition timeout_setter (value : Z) : M World unit :=
  fun w => (Ok tt, set__timeout value w).

(** The object, for a given unrolling bound of its loops. *)
Definition new (fuel : nat) : Connection World :=
  mkConnection (read fuel) (read_until fuel) (read_buffered fuel)
    write close timeout timeout_setter.

End SubprocessConnection.

(** ** The incremental read engine

    The three loops of [SubprocessConnection] are one loop, taken with a
    stop predicate on the gathered bytes and with or without a deadline.
    The engine is what the loops are proved about; the loops themselves
    are the ones above. *)

(** One readiness wait: against the deadline, after a fresh reading of the
    clock ([read], [read_until]), or a bare poll ([read_buffered]). *)
Definition await (deadline : option Z) : M World bool :=
  match deadline with
  | Some end_time =>
      now <- monotonic ;;
      if now <? end_time then select (end_time - now) else ret false
  | None => select 0
  end.

Fixpoint engine (fuel : nat) (stop : bytes -> bool) (deadline : option Z)
    (out : bytes) : M World bytes :=
  match fuel with
  | O => fun w => (OutOfFuel, w)
  | S fuel' =>
      if stop out then ret out
      else
        ready <- await deadline ;;
        if ready then
          data <- stdout_read 1 ;;
          if truthy data then engine fuel' stop deadline (out ++ data)
          else ret out
        else ret out
  end.

Definition length_reached (num_bytes : Z) (out : bytes) : bool :=
  negb (Z.of_nat (length out) <? num_bytes).

Definition ending_found (ending out : bytes) : bool :=
  endswith out ending.

Definition never (_ : bytes) : bool := false.

(** *** Predicates on traces *)

(** The time a trace spent inside blocking calls. *)
Fixpoint blocked_time (evs : list event) : Z :=
  match evs with
  | [] => 0
  | EvSelect _ started returned _ :: evs' => (returned - started) + blocked_time evs'
  | EvRead _ started returned _ :: evs' => (returned - started) + blocked_time evs'
  | _ :: evs' => blocked_time evs'
  end.

(** Every [select] of the trace comes right after a reading [now] of the
    clock with [now < end_time], and waits for [end_time - now]. *)
Fixpoint waits_for_remaining (end_time : Z) (last : option Z) (evs : list event)
    : bool :=
  match evs with
  | [] => true
  | EvMonotonic t :: evs' => waits_for_remaining end_time (Some t) evs'
  | EvSelect wait _ _ _ :: evs' | EvSelectRefused wait _ :: evs' =>
      match last with
      | Some now =>
          (wait =? end_time - now) && (now <? end_time)
          && waits_for_remaining end_time None evs'
      | None => false
      end
  | _ :: evs' => waits_for_remaining end_time None evs'
  end.

(** The trace never reads the clock and every [select] in it is a poll
    (a zero wait). *)
Fixpoint polls_only (evs : list event) : bool :=
  match evs with
  | [] => true
  | EvMonotonic _ :: _ => false
  | EvSelect wait _ _ _ :: evs' | EvSelectRefused wait _ :: evs' =>
      (wait =? 0) && polls_only evs'
  | _ :: evs' => polls_only evs'
  end.

(** Every read of the trace asks for one byte, gets at most one, and comes
    right after a [select] that reported the stream readable. *)
Fixpoint reads_guarded (ready_seen : bool) (evs : list event) : bool :=
  match evs with
  | [] => true
  | EvSelect _ _ _ ready :: evs' => reads_guarded ready evs'
  | EvRead size _ _ data :: evs' =>
      ready_seen && (size =? 1)%nat && (length data <=? 1)%nat
      && reads_guarded false evs'
  | _ :: evs' => reads_guarded false evs'
  end.

Definition trace_ok (deadline : option Z) (evs : list event) : bool :=
  match deadline with
  | Some end_time => waits_for_remaining end_time None evs
  | None => polls_only evs
  end
  && reads_guarded false evs.

(** *** What the stream holds *)

(** The part of the pipe that is readable strictly before [t]. *)
Fixpoint arrived_before (t : Z) (p : list (Z * byte)) : list (Z * byte) :=
  match p with
  | [] => []
  | (a, b) :: rest => if a <? t then (a, b) :: arrived_before t rest else []
  end.

(** The part of the pipe that is readable at [t]. *)
Fixpoint arrived_by (t : Z) (p : list (Z * byte)) : list (Z * byte) :=
  match p with
  | [] => []
  | (a, b) :: rest => if a <=? t then (a, b) :: arrived_by t rest else []
  end.

(** Gathering from [avail] one byte at a time until [stop] holds. *)
Fixpoint gather (stop : bytes -> bool) (out avail : bytes) : bytes :=
  match avail with
  | [] => out
  | b :: rest => if stop out then out else gather stop (out ++ [b]) rest
  end.

(** [d] occurs in [s] as a contiguous run of bytes. *)
Definition occurs_in (d s : bytes) : Prop :=
  exists pre post, s = pre ++ d ++ post.

(** The bytes a reader holds in its buffer. *)
Definition held (r : reader) : bytes :=
  match r with
  | RawReader => []
  | BufferedReader _ h => h
  end.

(** The same kind of reader, with the same size of buffer. *)
Definition same_reader (r r' : reader) : Prop :=
  match r, r' with
  | RawReader, RawReader => True
  | BufferedReader size _, BufferedReader size' _ => size = size'
  | _, _ => False
  end.

(** The bytes of the stream that no call has returned yet: those in the
    buffer of the reader, then those of the pipe. *)
Definition unread (w : World) : bytes :=
  held (stdout w) ++ map snd (stdout_pipe w).

(** The fields of the world that a read leaves alone. *)
Definition same_io (w w' : World) : Prop :=
  select_limit w' = select_limit w /\
  stdout_eof w' = stdout_eof w /\
  child_exited w' = child_exited w /\
  stdin_buffered w' = stdin_buffered w /\
  stdin_buffer w' = stdin_buffer w /\
  stdin_room w' = stdin_room w /\
  stdin_received w' = stdin_received w /\
  _timeout w' = _timeout w.

(** The stream is readable right now. *)
Definition readable_now (w : World) : Prop :=
  match next_readable w with
  | Some t => t <= clock w
  | None => False
  end.

(** The time left to a deadline, seen from the world [w]. *)
Definition time_left (deadline : option Z) (w : World) : Z :=
  match deadline with
  | Some end_time => Z.max 0 (end_time - clock w)
  | None => 0
  end.

(** The latest time at which a run of the engine that starts in [w] is
    back, when computing takes no time. *)
Definition return_bound (deadline : option Z) (w : World) : Z :=
  match deadline with
  | Some end_time => Z.max (clock w) end_time
  | None => clock w
  end.

(** What one run of the engine did: [cs] is the part of the pipe that left
    it, [taken] the bytes the run handed out and [evs] the calls it
    made. *)
Record engine_facts (fuel : nat) (stop : bytes -> bool) (deadline : option Z)
    (out : bytes) (w : World) (r : outcome bytes) (w' : World)
    (cs : list (Z * byte)) (taken : bytes) (evs : list event) : Prop := mkEngineFacts {
  ef_pipe : stdout_pipe w = cs ++ stdout_pipe w';
  ef_held : held (stdout w) ++ map snd cs = taken ++ held (stdout w');
  ef_reader : same_reader (stdout w) (stdout w');
  ef_result :
    match r with
    | Ok out' => out' = out ++ taken
    | OutOfFuel => (fuel <= length taken)%nat
    | Raise e =>
        e = OverflowError /\ taken = [] /\
        0 < time_left deadline w /\ select_limit w < time_left deadline w
    | Blocked => False
    end;
  ef_minimal :
    forall k, (k < length taken)%nat -> stop (out ++ firstn k taken) = false;
  ef_log : log w' = log w ++ evs;
  ef_trace : trace_ok deadline evs = true;
  ef_blocked : 0 <= blocked_time evs <= time_left deadline w;
  ef_clock : clock w <= clock w';
  ef_arrived : Forall (fun p => fst p <= clock w') cs;
  ef_io : same_io w w';
  ef_ideal :
    delays w = [] ->
    delays w' = [] /\ clock w' <= return_bound deadline w
}.

(** [read] and [read_until] read the clock once, fix the deadline, and run
    the engine from the world [started w]. *)
Definition started (w : World) : World :=
  emit (EvMonotonic (clock (tick w))) (tick w).

(** The bytes of the pipe that a call starting now, with the current
    timeout, sees arrive strictly before its deadline. *)
Definition arriving_in_time (w : World) : bytes :=
  map snd (arrived_before (clock w + _timeout w) (stdout_pipe w)).

(** A call returns, and what it returns is what it took from the pipe
    and from the buffer of the reader, but for what that buffer now
    holds. *)
Definition returns_what_it_took (run : outcome bytes * World) (w : World) : Prop :=
  exists out cs,
    fst run = Ok out /\ stdout_pipe w = cs ++ stdout_pipe (snd run) /\
    held (stdout w) ++ map snd cs = out ++ held (stdout (snd run)).

(** A call returns in that way, or the selector refused its wait. *)
Definition returns_or_refused (run : outcome bytes * World) (w : World) : Prop :=
  returns_what_it_took run w \/
  (fst run = Raise OverflowError /\ select_limit w < _timeout w).

(** What the transport takes of [data] while the child lives. *)
Definition accepted (data : bytes) (w : World) : nat :=
  if stdin_buffered w then length data
  else Nat.min (length data) (stdin_room w).

(** How many times the child was killed. *)
Fixpoint kills (evs : list event) : nat :=
  match evs with
  | [] => O
  | EvKill :: evs' => S (kills evs')
  | _ :: evs' => kills evs'
  end.

(** The outcome of a block followed by the outcome of a cleanup that ran
    after it: the cleanup's own failure wins. *)
Definition after_cleanup {A} (r : outcome A) (c : outcome unit) : outcome A :=
  match c with
  | Ok _ => r
  | Raise e => Raise e
  | Blocked => Blocked
  | OutOfFuel => OutOfFuel
  end.

(** ** Worlds to run the code on *)

(** The longest wait that epoll accepts, [2**31 - 1] milliseconds; in the
    worlds below a tick is a millisecond. *)
Definition epoll_limit : Z := 2147483647.

(** The size of the buffers that [Popen] gives the pipes by default
    ([io.DEFAULT_BUFFER_SIZE]); the number itself plays no part. *)
Definition default_buffer_size : nat := 8 * 1024.

(** A world whose child wrote [pipe], closes its output at [eof], whose
    program takes no time to compute, and whose connection was created
    with [bufsize=0]. *)
Definition ideal_world (now : Z) (pipe : list (Z * byte)) (eof : option Z)
    (t : Z) : World :=
  mkWorld now [] epoll_limit pipe eof RawReader false false [] 4096 [] t [].

(** The same world with a connection created without [bufsize]: the
    output of the child comes through a buffered reader, empty so far,
    and its input goes through a buffered writer. *)
Definition buffered (w : World) : World :=
  set_stdin_buffered true (set_stdout (BufferedReader default_buffer_size []) w).

(** Bytes that all reach the pipe at time [t]. *)
Definition arriving (t : Z) (bs : bytes) : list (Z * byte) :=
  map (fun b => (t, b)) bs.

Definition hello : bytes := ["h"; "e"; "l"; "l"; "o"; "010"]%byte.

Definition newline : bytes := ["010"%byte].

(** An echoing child whose line [hello] reached the pipe at time 50; the
    program runs at time 100 with a timeout of 10. *)
Definition echo_world : World := ideal_world 100 (arriving 50 hello) None 10.

(** The same with a timeout of [t]. *)
Definition echo_world_with (t : Z) : World := ideal_world 100 (arriving 50 hello) None t.

(** The echoing child, with a program that loses twenty ticks between its
    first and its second reading of the clock. *)
Definition slow_echo_world : World := set_delays [0; 20]%N echo_world.

(** A timeout beyond what the selector accepts. *)
Definition huge_timeout : Z := 3000000000.

(** A child whose byte [a] is queued and whose bytes [\n] and [b] arrive
    together at time 105. *)
Definition trailing_world : World :=
  ideal_world 100 ((50, "a"%byte) :: arriving 105 ["010"; "b"]%byte) None 10.

(** A child whose byte [h] arrives at time 102 and whose byte [i] at time
    107. *)
Definition trickling_world : World :=
  ideal_world 100 [(102, "h"%byte); (107, "i"%byte)] None 10.

(** A child that wrote two bytes and closed its output at time 60. *)
Definition closed_world : World :=
  ideal_world 100 (arriving 50 ["h"; "i"]%byte) (Some 60) 10.

(** A child that writes nothing and keeps its output open. *)
Definition silent_world : World := ideal_world 100 [] None 10.

(** The later of [c] and the arrivals of the bytes [cs]. *)
Definition latest (c : Z) (cs : list (Z * byte)) : Z :=
  fold_left Z.max (map fst cs) c.

(** ** Callers *)

(** A read request, as a caller makes it. *)
Inductive read_call : Type :=
| CallRead (num_bytes : Z)
| CallReadUntil (ending : bytes)
| CallReadBuffered.

Definition do_read (self : Connection World) (c : read_call) : M World bytes :=
  match c with
  | CallRead num_bytes => read self num_bytes
  | CallReadUntil ending => read_until self ending
  | CallReadBuffered => read_buffered self
  end.

(** A caller that makes its requests one after the other and keeps the
    replies. *)
Fixpoint do_reads (self : Connection World) (calls : list read_call)
    : M World (list bytes) :=
  match calls with
  | [] => ret []
  | c :: calls' =>
      out <- do_read self c ;;
      outs <- do_reads self calls' ;;
      ret (out :: outs)
  end.

(** ** The constructor of [SubprocessConnection] *)

(** The values that matter among the keyword arguments of [Popen]. *)
Inductive pyvalue : Type :=
| PyNone
| PyBool (b : bool)
| PyInt (n : Z)
| PyStr (s : string)
| PIPE.

(** A [dict] with string keys, in insertion order. *)
Definition dict := list (string * pyvalue).

(** [d.get(k)] *)
Fixpoint dict_get (k : string) (d : dict) : option pyvalue :=
  match d with
  | [] => None
  | (k', v) :: d' => if String.eqb k k' then Some v else dict_get k d'
  end.

(** [d[k] = v]: the value of an existing key is replaced in place, a new
    key is added at the end. *)
Fixpoint dict_set (k : string) (v : pyvalue) (d : dict) : dict :=
  match d with
  | [] => [(k, v)]
  | (k', v') :: d' =>
      if String.eqb k k' then (k', v) :: d' else (k', v') :: dict_set k v d'
  end.

Section Constructor.

(** [subprocess.Popen], which is not part of this code: given its
    positional and keyword arguments it yields a process or raises. *)
Context {Process : Type} (Popen : list pyvalue -> dict -> outcome Process).

(** The length of [1.0] seconds in ticks. *)
Context (second : Z).

(** The fields of a new object. *)
Record SubprocessFields : Type := mkSubprocessFields {
  new_process : Process;    (* [self._process] *)
  new_timeout : Z           (* [self._timeout] *)
}.

(** [SubprocessConnection.__init__(self, *args, timeout=1.0, **kwargs)];
    [timeout] is [None] when the caller leaves it out. *)
Definition init__ (args : list pyvalue) (timeout : option Z) (kwargs : dict)
    : outcome SubprocessFields :=
  let kwargs := dict_set "stdin" PIPE kwargs in
  let kwargs := dict_set "stdout" PIPE kwargs in
  let kwargs := dict_set "text" (PyBool false) kwargs in
  match Popen args kwargs with
  | Ok process =>
      Ok (mkSubprocessFields process
            (match timeout with Some t => t | None => 1 * second end))
  | Raise e => Raise e
  | Blocked => Blocked
  | OutOfFuel => OutOfFuel
  end.

End Constructor.

(** ** A port to run the serial backend on *)

(** The state of a port: the bytes received and not yet read, and the
    timeout of the port. *)
Record Port : Type := mkPort {
  port_waiting : bytes;
  port_timeout : Z
}.

(** A port that keeps what it received in a queue; when [strict], it
    refuses a negative timeout, as the serial package does. *)
Definition queue_port (strict : bool) : Serial Port :=
  mkSerial
    (fun size s =>
       (Ok (firstn (Z.to_nat size) (port_waiting s)),
        mkPort (skipn (Z.to_nat size) (port_waiting s)) (port_timeout s)))
    (fun ending s =>
       let out := gather (ending_found ending) [] (port_waiting s) in
       (Ok out, mkPort (skipn (length out) (port_waiting s)) (port_timeout s)))
    (fun s => (Ok (length (port_waiting s)), s))
    (fun data s => (Ok (length data), s))
    (fun s => (Ok tt, s))
    (fun s => (Ok (port_timeout s), s))
    (fun value s =>
       if strict && (value <? 0) then (Raise (OtherError 0), s)
       else (Ok tt, mkPort (port_waiting s) value)).

(** * Proofs *)

(** ** Bytes *)

Lemma bytes_eqb_eq (a b : bytes) : bytes_eqb a b = true <-> a = b.
Proof.
  revert b; induction a as [|x a IH]; intros [|y b]; simpl;
    try (split; [discriminate || reflexivity | discriminate || reflexivity]).
  rewrite andb_true_iff, IH. split.
  - intros [Hxy ->]. apply Byte.byte_dec_bl in Hxy. now subst.
  - intros E; injection E as -> ->. split; [now apply Byte.byte_dec_lb | reflexivity].
Qed.

Lemma endswith_suffix (out ending : bytes) :
  endswith out ending = true <-> exists pre, out = pre ++ ending.
Proof.
  unfold endswith. rewrite andb_true_iff, Nat.leb_le, bytes_eqb_eq. split.
  - intros [_ E]. exists (firstn (length out - length ending) out).
    rewrite <- (firstn_skipn (length out - length ending) out) at 1.
    f_equal. exact E.
  - intros [pre ->]. rewrite length_app. split; [lia|].
    replace (length pre + length ending - length ending)%nat
      with (length pre + 0)%nat by lia.
    now rewrite skipn_app, Nat.add_0_r, skipn_all, Nat.sub_diag.
Qed.

(** ** Library calls *)

Lemma tick_clock (w : World) : clock w <= clock (tick w).
Proof. unfold tick. destruct (delays w); simpl; lia. Qed.

Lemma tick_pipe (w : World) : stdout_pipe (tick w) = stdout_pipe w.
Proof. unfold tick. now destruct (delays w). Qed.

Lemma tick_stdout (w : World) : stdout (tick w) = stdout w.
Proof. unfold tick. now destruct (delays w). Qed.

Lemma tick_log (w : World) : log (tick w) = log w.
Proof. unfold tick. now destruct (delays w). Qed.

Lemma tick_same_io (w : World) : same_io w (tick w).
Proof. unfold tick, same_io. destruct (delays w); simpl; repeat split. Qed.

Lemma tick_limit (w : World) : select_limit (tick w) = select_limit w.
Proof. apply tick_same_io. Qed.

Lemma tick_eof (w : World) : stdout_eof (tick w) = stdout_eof w.
Proof. apply tick_same_io. Qed.

Lemma tick_ideal (w : World) : delays w = [] -> tick w = w.
Proof. unfold tick. now intros ->. Qed.

Lemma tick_next_readable (w : World) : next_readable (tick w) = next_readable w.
Proof. unfold tick, next_readable. now destruct (delays w). Qed.

Lemma same_io_refl (w : World) : same_io w w.
Proof. unfold same_io. repeat split. Qed.

Lemma same_io_trans (w1 w2 w3 : World) :
  same_io w1 w2 -> same_io w2 w3 -> same_io w1 w3.
Proof. unfold same_io. intuition congruence. Qed.

Lemma same_reader_refl (r : reader) : same_reader r r.
Proof. now destruct r. Qed.

Lemma same_reader_trans (r1 r2 r3 : reader) :
  same_reader r1 r2 -> same_reader r2 r3 -> same_reader r1 r3.
Proof. destruct r1, r2, r3; simpl; try tauto; congruence. Qed.

(** The wait of an accepted [select], whatever the world. *)
Lemma select_wait_spec (wait : Z) (w : World) :
  exists ready w1,
    select_wait wait w = (Ok ready, w1) /\
    log w1 = log w ++ [EvSelect wait (clock w) (clock w1) ready] /\
    stdout_pipe w1 = stdout_pipe w /\ stdout w1 = stdout w /\
    same_io w w1 /\ delays w1 = delays w /\
    clock w <= clock w1 /\ clock w1 - clock w <= Z.max 0 wait /\
    (ready = true -> readable_now w1).
Proof.
  unfold select_wait, next_readable, readable_now.
  destruct (stdout_pipe w) as [|[t b] rest] eqn:Epipe;
    [destruct (stdout_eof w) as [t|] eqn:Eeof|].
  1,3: destruct (Z.leb_spec t (clock w));
       [|destruct (Z.ltb_spec t (clock w + wait))].
  all: do 2 eexists; split; [reflexivity|]; unfold next_readable, same_io; simpl;
       rewrite ?Epipe, ?Eeof; repeat split; try congruence; try lia.
Qed.

(** What one call of [select] does, whatever the world: the selector
    accepts the wait, or refuses it at once. *)
Lemma select_spec (wait : Z) (w : World) :
  exists r w1 ev,
    select wait w = (r, w1) /\
    log w1 = log w ++ [ev] /\
    stdout_pipe w1 = stdout_pipe w /\ stdout w1 = stdout w /\
    same_io w w1 /\ delays w1 = delays (tick w) /\
    clock (tick w) <= clock w1 /\ clock w1 - clock (tick w) <= Z.max 0 wait /\
    ((exists ready,
        r = Ok ready /\ ev = EvSelect wait (clock (tick w)) (clock w1) ready /\
        (0 < wait -> wait <= select_limit w) /\ (ready = true -> readable_now w1)) \/
     (r = Raise OverflowError /\ ev = EvSelectRefused wait (clock (tick w)) /\
      0 < wait /\ select_limit w < wait /\ clock w1 = clock (tick w))).
Proof.
  unfold select. rewrite tick_limit.
  pose proof (tick_pipe w) as Hp. pose proof (tick_stdout w) as Hs.
  pose proof (tick_log w) as Hl. pose proof (tick_same_io w) as Hio.
  destruct (Z.ltb_spec 0 wait) as [Hpos|Hneg];
    [destruct (Z.ltb_spec (select_limit w) wait) as [Hbig|Hsmall]|]; cbn [andb].
  - do 3 eexists. split; [reflexivity|]. simpl. rewrite Hl.
    repeat (split; [first [reflexivity | assumption | lia]|]).
    right. repeat split; assumption.
  - destruct (select_wait_spec wait (tick w))
      as (ready & w1 & -> & Hl1 & Hp1 & Hs1 & Hio1 & Hd1 & Hc1 & Hw1 & Hr1).
    exists (Ok ready), w1. eexists. split; [reflexivity|].
    split; [rewrite Hl1, Hl; reflexivity|].
    split; [congruence|]. split; [congruence|].
    split; [eapply same_io_trans; eassumption|].
    repeat (split; [assumption|]). left. exists ready. repeat split; auto.
  - destruct (select_wait_spec wait (tick w))
      as (ready & w1 & -> & Hl1 & Hp1 & Hs1 & Hio1 & Hd1 & Hc1 & Hw1 & Hr1).
    exists (Ok ready), w1. eexists. split; [reflexivity|].
    split; [rewrite Hl1, Hl; reflexivity|].
    split; [congruence|]. split; [congruence|].
    split; [eapply same_io_trans; eassumption|].
    repeat (split; [assumption|]). left. exists ready. repeat split; auto. lia.
Qed.

(** What a read of the pipe takes had arrived, and is the head of the
    pipe. *)
Lemma take_arrived_spec (size : nat) (c : Z) :
  forall p : list (Z * byte),
    exists cs,
      p = cs ++ snd (take_arrived size c p) /\
      fst (take_arrived size c p) = map snd cs /\
      Forall (fun q => fst q <= c) cs.
Proof.
  induction size as [|size IH]; intros p; [now exists []|].
  destruct p as [|[t b] p]; [now exists []|]. simpl.
  destruct (Z.leb_spec t c) as [Ht|Ht]; [|now exists []].
  destruct (IH p) as (cs & Hp & Hb & Ha).
  destruct (take_arrived size c p) as [bs r]. simpl in *.
  exists ((t, b) :: cs). simpl. split; [now rewrite <- Hp|].
  split; [now rewrite Hb|]. constructor; [exact Ht | exact Ha].
Qed.

(** [stdout.read(1)] when the pipe is readable: it returns at once, with
    one byte or, at the end of the stream, none.  [cs] is what left the
    pipe. *)
Lemma stdout_read_one_spec (w : World) :
  readable_now w ->
  exists data w1 cs,
    stdout_read 1 w = (Ok data, w1) /\
    log w1 = log w ++ [EvRead 1 (clock w1) (clock w1) data] /\
    same_io w w1 /\ same_reader (stdout w) (stdout w1) /\
    delays w1 = delays (tick w) /\ clock w1 = clock (tick w) /\
    stdout_pipe w = cs ++ stdout_pipe w1 /\
    held (stdout w) ++ map snd cs = data ++ held (stdout w1) /\
    Forall (fun p => fst p <= clock w1) cs /\
    (length data <= 1)%nat.
Proof.
  unfold stdout_read, readable_now, next_readable.
  pose proof (tick_clock w) as Hc. pose proof (tick_log w) as Hl.
  pose proof (tick_same_io w) as Hio. pose proof (tick_pipe w) as Hp.
  pose proof (tick_eof w) as He. pose proof (tick_stdout w) as Hs. rewrite Hs.
  set (w0 := tick w) in *. intros Hnow.
  assert (Hfill : forall size,
            exists bs rest cs,
              pipe_read (S size) (clock w0) (stdout_pipe w0) (stdout_eof w0)
                = Some (bs, rest, clock w0) /\
              stdout_pipe w = cs ++ rest /\ bs = map snd cs /\
              Forall (fun p => fst p <= clock w0) cs /\
              (length bs <= S size)%nat /\
              (bs = [] -> cs = [])).
  { intros size. unfold pipe_read. rewrite Hp, He.
    destruct (stdout_pipe w) as [|[t b] rest] eqn:Epipe.
    - destruct (stdout_eof w) as [t|]; [|contradiction].
      exists [], [], []. replace (Z.max (clock w0) t) with (clock w0) by lia.
      repeat split; auto; simpl; lia.
    - replace (Z.max (clock w0) t) with (clock w0) by lia.
      destruct (take_arrived_spec (S size) (clock w0) ((t, b) :: rest))
        as (cs & Hcs & Hbs & Ha).
      destruct (take_arrived (S size) (clock w0) ((t, b) :: rest)) as [bs r] eqn:Et.
      simpl in Hcs, Hbs. exists bs, r, cs.
      split; [reflexivity|]. split; [exact Hcs|]. split; [exact Hbs|].
      split; [exact Ha|]. split.
      + clear - Et. revert bs r Et. generalize ((t, b) :: rest) (S size).
        intros p n; revert p; induction n as [|n IHn]; intros p bs r Et.
        * simpl in Et. injection Et as <- <-. simpl; lia.
        * destruct p as [|[a x] p]; simpl in Et; [injection Et as <- <-; simpl; lia|].
          destruct (a <=? clock w0); [|injection Et as <- <-; simpl; lia].
          destruct (take_arrived n (clock w0) p) as [bs' r'] eqn:E'.
          injection Et as <- <-. specialize (IHn _ _ _ E'). simpl; lia.
      + intros ->. simpl in Et.
        rewrite (proj2 (Z.leb_le t (clock w0))) in Et by lia.
        destruct (take_arrived size (clock w0) rest). discriminate. }
  destruct (stdout w) as [|cap [|b h]] eqn:Eout.
  - (* the pipe itself *)
    unfold raw_read. destruct (Hfill O) as (bs & rest & cs & -> & Hcs & Hbs & Ha & Hlen & _).
    exists bs, (emit (EvRead 1 (clock w0) (clock w0) bs)
                  (set_stdout_pipe rest (set_clock (clock w0) w0))), cs.
    split; [reflexivity|]. simpl. rewrite Hl, Hs, app_nil_r.
    repeat (split; [first [reflexivity | assumption | apply Hio | now symmetry]|]).
    assumption.
  - (* a buffered reader, empty: the buffer is filled *)
    unfold buffered_read. cbn [buffered_take].
    assert (Hcap : exists k, Nat.max 1 cap = S k)
      by (destruct cap; simpl; eauto).
    destruct Hcap as [k ->].
    destruct (Hfill k) as (bs & rest & cs & -> & Hcs & Hbs & Ha & _ & Hnil).
    destruct bs as [|b chunk].
    + rewrite (Hnil eq_refl) in *. simpl in Hcs.
      eexists [], _, []. split; [reflexivity|]. simpl. rewrite Hl, <- Hcs.
      repeat (split; [first [reflexivity | assumption | apply Hio | constructor]|]).
      lia.
    + eexists [b], _, cs. split; [reflexivity|]. simpl. rewrite Hl.
      repeat (split; [first [reflexivity | assumption | apply Hio | now symmetry]|]).
      lia.
  - (* a buffered reader that holds something *)
    unfold buffered_read. cbn [buffered_take].
    eexists [b], _, []. split; [reflexivity|]. simpl. rewrite Hl, Hp, app_nil_r.
    repeat (split; [first [reflexivity | assumption | apply Hio | constructor]|]).
    lia.
Qed.

(** ** The engine, in any world *)

Lemma blocked_time_app (a b : list event) :
  blocked_time (a ++ b) = blocked_time a + blocked_time b.
Proof.
  induction a as [|e a IH]; simpl; [reflexivity|].
  destruct e; rewrite ?IH; lia.
Qed.

Lemma trace_ok_nil (deadline : option Z) : trace_ok deadline [] = true.
Proof. now destruct deadline. Qed.

(** What one readiness wait does: it reports the stream readable or not,
    or the selector refuses the wait.  When the stream is readable, the
    read of one byte that follows keeps the trace in order. *)
Lemma await_spec (deadline : option Z) (w : World) :
  exists r w1 evs,
    await deadline w = (r, w1) /\
    log w1 = log w ++ evs /\
    stdout_pipe w1 = stdout_pipe w /\ stdout w1 = stdout w /\
    same_io w w1 /\ clock w <= clock w1 /\
    (delays w = [] -> delays w1 = [] /\ clock w1 <= return_bound deadline w) /\
    trace_ok deadline evs = true /\
    0 <= blocked_time evs <= Z.min (clock w1 - clock w) (time_left deadline w) /\
    match r with
    | Ok true =>
        readable_now w1 /\
        time_left deadline w1 <= Z.max 0 (select_limit w) /\
        (forall data s evs',
           (length data <= 1)%nat -> trace_ok deadline evs' = true ->
           trace_ok deadline (evs ++ EvRead 1 s s data :: evs') = true)
    | Ok false => True
    | Raise e =>
        e = OverflowError /\
        0 < time_left deadline w /\ select_limit w < time_left deadline w
    | Blocked | OutOfFuel => False
    end.
Proof.
  destruct deadline as [end_time|]; unfold await, time_left, return_bound.
  - unfold bind, monotonic.
    pose proof (tick_clock w) as Hc. pose proof (tick_pipe w) as Hp.
    pose proof (tick_log w) as Hl. pose proof (tick_same_io w) as Hio.
    pose proof (tick_stdout w) as Hs. pose proof (tick_ideal w) as Hid.
    set (now := clock (tick w)) in *.
    destruct (Z.ltb_spec now end_time) as [Hlt|Hge].
    + set (w0 := emit (EvMonotonic now) (tick w)).
      pose proof (tick_clock w0) as Hc0. pose proof (tick_ideal w0) as Hid0.
      destruct (select_spec (end_time - now) w0)
        as (r & w1 & ev & -> & Hl1 & Hp1 & Hs1 & Hio1 & Hd1 & Hck & Hwt & Hcase).
      assert (Hlim : select_limit w0 = select_limit w) by apply Hio.
      assert (Hnow : now = clock w0) by reflexivity.
      exists r, w1, [EvMonotonic now; ev].
      split; [reflexivity|].
      split; [rewrite Hl1; subst w0; simpl; now rewrite Hl, <- app_assoc|].
      split; [rewrite Hp1; exact Hp|]. split; [rewrite Hs1; exact Hs|].
      split; [eapply same_io_trans; [exact Hio | exact Hio1]|].
      split; [lia|].
      split.
      { intros Hd.
        assert (Hd0 : delays w0 = []) by (subst w0; simpl; now rewrite (Hid Hd)).
        pose proof (f_equal clock (Hid0 Hd0)) as E0.
        pose proof (f_equal clock (Hid Hd)) as E. fold now in E.
        split; [rewrite Hd1, (Hid0 Hd0); exact Hd0 | lia]. }
      destruct Hcase as [(ready & -> & -> & Hacc & Hready) | (-> & -> & Hpos & Hbig & Hsame)];
        unfold trace_ok; simpl; rewrite Z.eqb_refl, (proj2 (Z.ltb_lt _ _) Hlt); simpl.
      * split; [reflexivity|]. split; [lia|].
        destruct ready; [|exact I].
        split; [now apply Hready|]. split; [rewrite Hlim in Hacc; lia|].
        intros data s evs' Hlen Hevs'.
        apply andb_true_iff in Hevs' as [Ha Hb].
        now rewrite Ha, Hb, (proj2 (Nat.leb_le _ _) Hlen).
      * split; [reflexivity|]. split; [lia|].
        rewrite Hlim in Hbig. repeat split; lia.
    + exists (Ok false), (emit (EvMonotonic now) (tick w)), [EvMonotonic now].
      split; [reflexivity|]. simpl. rewrite Hl.
      repeat (split; [first [reflexivity | assumption | lia]|]).
      split; [|split; [reflexivity | split; [lia | exact I]]].
      intros Hd. pose proof (f_equal clock (Hid Hd)) as E. fold now in E.
      split; [now rewrite (Hid Hd) | lia].
  - pose proof (tick_clock w) as Hc. pose proof (tick_ideal w) as Hid.
    destruct (select_spec 0 w)
      as (r & w1 & ev & -> & Hl1 & Hp1 & Hs1 & Hio1 & Hd1 & Hck & Hwt & Hcase).
    exists r, w1, [ev]. split; [reflexivity|].
    repeat (split; [first [assumption | lia]|]).
    split.
    { intros Hd. pose proof (f_equal clock (Hid Hd)) as E.
      split; [rewrite Hd1, (Hid Hd); exact Hd | lia]. }
    destruct Hcase as [(ready & -> & -> & Hacc & Hready) | (-> & -> & Hpos & _)]; [|lia].
    simpl. split; [reflexivity|]. split; [lia|].
    destruct ready; [|exact I].
    split; [now apply Hready|]. split; [lia|].
    intros data s evs' Hlen Hevs'. unfold trace_ok in *.
    apply andb_true_iff in Hevs' as [Ha Hb]. simpl.
    now rewrite Ha, Hb, (proj2 (Nat.leb_le _ _) Hlen).
Qed.

(** A run that hands out nothing. *)
Lemma facts_halt fuel stop deadline out w r w' cs evs :
  stdout_pipe w = cs ++ stdout_pipe w' ->
  held (stdout w) ++ map snd cs = held (stdout w') ->
  same_reader (stdout w) (stdout w') ->
  match r with
  | Ok out' => out' = out
  | OutOfFuel => fuel = O
  | Raise e =>
      e = OverflowError /\
      0 < time_left deadline w /\ select_limit w < time_left deadline w
  | Blocked => False
  end ->
  log w' = log w ++ evs ->
  trace_ok deadline evs = true ->
  0 <= blocked_time evs <= time_left deadline w ->
  clock w <= clock w' ->
  Forall (fun p => fst p <= clock w') cs ->
  same_io w w' ->
  (delays w = [] -> delays w' = [] /\ clock w' <= return_bound deadline w) ->
  engine_facts fuel stop deadline out w r w' cs [] evs.
Proof.
  intros Hp Hh Hr Hres Hl Ht Hb Hc Ha Hio Hid. constructor; auto.
  - destruct r; simpl; try tauto.
    + now rewrite app_nil_r.
    + lia.
  - simpl. intros k Hk. lia.
Qed.

(** The facts hold of every run of the engine. *)
Lemma engine_run (fuel : nat) (stop : bytes -> bool) (deadline : option Z) :
  forall (out : bytes) (w : World),
  exists cs taken evs,
    engine_facts fuel stop deadline out w
      (fst (engine fuel stop deadline out w))
      (snd (engine fuel stop deadline out w)) cs taken evs.
Proof.
  assert (Htl : forall w : World, 0 <= time_left deadline w)
    by (intros w; unfold time_left; destruct deadline; lia).
  assert (Hstay : forall out (w : World) k,
            engine_facts k stop deadline out w
              (match k with O => OutOfFuel | S _ => Ok out end) w [] [] []).
  { intros out w k. apply facts_halt; simpl; rewrite ?app_nil_r;
      auto using same_io_refl, same_reader_refl, trace_ok_nil.
    - now destruct k.
    - pose proof (Htl w). lia.
    - lia.
    - intros Hd. split; [exact Hd|]. unfold return_bound. destruct deadline; lia. }
  induction fuel as [|fuel IH]; intros out w.
  - exists [], [], []. apply (Hstay out w O).
  - simpl. destruct (stop out) eqn:Hstop.
    { exists [], [], []. apply (Hstay out w (S fuel)). }
    unfold bind.
    destruct (await_spec deadline w)
      as (r & w1 & evs1 & -> & Hl1 & Hp1 & Hs1 & Hio1 & Hc1 & Hid1 & Ht1 & Hb1 & Hcase).
    destruct r as [[|]|e| |]; try contradiction; cbn [fst snd].
    + (* the stream is readable: one byte, or the end of file *)
      destruct Hcase as (Hready & Hlim & Htr).
      destruct (stdout_read_one_spec w1 Hready)
        as (data & w2 & cs1 & -> & Hl2 & Hio2 & Hr2 & Hd2 & Hck2 & Hp2 & Hh2 & Ha2 & Hlen).
      pose proof (tick_clock w1) as Hc2. pose proof (tick_ideal w1) as Hid2.
      assert (Hidw2 : delays w = [] ->
                delays w2 = [] /\ clock w2 <= return_bound deadline w).
      { intros Hd. destruct (Hid1 Hd) as [Hd1 Hbound].
        rewrite Hd2, Hck2, (Hid2 Hd1). split; assumption. }
      destruct data as [|b [|b' data]]; [| |simpl in Hlen; lia];
        cbn [truthy]; unfold ret; cbn [fst snd].
      * exists cs1, [], (evs1 ++ [EvRead 1 (clock w2) (clock w2) []]).
        apply facts_halt.
        -- now rewrite Hp1 in Hp2.
        -- now rewrite <- Hs1.
        -- now rewrite <- Hs1.
        -- reflexivity.
        -- now rewrite Hl2, Hl1, app_assoc.
        -- apply Htr; [simpl; lia | apply trace_ok_nil].
        -- rewrite blocked_time_app. simpl. lia.
        -- lia.
        -- exact Ha2.
        -- eapply same_io_trans; eassumption.
        -- exact Hidw2.
      * destruct (IH (out ++ [b]) w2) as (cs' & taken' & evs' & F).
        destruct F as [Fp Fh Frd Fr Fm Fl Ftr Fb Fc Fa Fio Fid].
        exists (cs1 ++ cs'), (b :: taken'),
          (evs1 ++ EvRead 1 (clock w2) (clock w2) [b] :: evs').
        assert (Htl2 : time_left deadline w2 <= time_left deadline w1).
        { unfold time_left. destruct deadline; lia. }
        assert (Hlim2 : select_limit w2 = select_limit w).
        { transitivity (select_limit w1); [apply Hio2 | apply Hio1]. }
        constructor.
        -- rewrite <- Hp1, Hp2, Fp. now rewrite app_assoc.
        -- rewrite map_app, app_assoc, <- Hs1, Hh2. simpl. now rewrite Fh.
        -- rewrite <- Hs1. eapply same_reader_trans; eassumption.
        -- destruct (fst (engine fuel stop deadline (out ++ [b]) w2)); simpl in *.
           ++ now rewrite Fr, <- app_assoc.
           ++ lia.
           ++ exact Fr.
           ++ lia.
        -- intros [|k] Hk; simpl in *.
           ++ now rewrite app_nil_r.
           ++ specialize (Fm k ltac:(lia)). now rewrite <- app_assoc in Fm.
        -- rewrite Fl, Hl2, Hl1, <- !app_assoc. reflexivity.
        -- apply Htr; [simpl; lia | exact Ftr].
        -- rewrite blocked_time_app. simpl.
           pose proof (Htl w2). unfold time_left in *. destruct deadline; lia.
        -- lia.
        -- apply Forall_app. split; [|exact Fa].
           eapply Forall_impl; [|exact Ha2]. simpl. intros p Hp. lia.
        -- eapply same_io_trans; [|exact Fio]. eapply same_io_trans; eassumption.
        -- intros Hd. destruct (Hidw2 Hd) as [Hdw2 Hbw2].
           destruct (Fid Hdw2) as [Hd' Hb']. split; [exact Hd'|].
           unfold return_bound in *. destruct deadline; lia.
    + (* not readable in time *)
      unfold ret; cbn [fst snd].
      exists [], [], evs1. apply facts_halt; simpl; auto.
      * now rewrite Hs1, app_nil_r.
      * rewrite Hs1. apply same_reader_refl.
      * lia.
    + (* the selector refused the wait *)
      exists [], [], evs1. apply facts_halt; simpl; auto.
      * now rewrite Hs1, app_nil_r.
      * rewrite Hs1. apply same_reader_refl.
      * lia.
Qed.

(** ** The loops of [SubprocessConnection] are the engine *)

Lemma read_loop_engine (fuel : nat) (num_bytes end_time : Z) :
  forall (out : bytes) (w : World),
    SubprocessConnection.read_loop fuel num_bytes end_time out w
    = engine fuel (length_reached num_bytes) (Some end_time) out w.
Proof.
  induction fuel as [|fuel IH]; intros out w; simpl; [reflexivity|].
  unfold length_reached. destruct (Z.of_nat (length out) <? num_bytes); simpl; [|reflexivity].
  unfold bind, monotonic. destruct (_ <? end_time); [|reflexivity].
  destruct (select _ _) as [[[|]| | |] w1]; try reflexivity.
  destruct (stdout_read 1 w1) as [[data| | |] w2]; try reflexivity.
  destruct (truthy data); [apply IH | reflexivity].
Qed.

Lemma read_until_loop_engine (fuel : nat) (ending : bytes) (end_time : Z) :
  forall (out : bytes) (w : World),
    SubprocessConnection.read_until_loop fuel ending end_time out w
    = engine fuel (ending_found ending) (Some end_time) out w.
Proof.
  induction fuel as [|fuel IH]; intros out w; simpl; [reflexivity|].
  unfold ending_found. destruct (endswith out ending); simpl; [reflexivity|].
  unfold bind, monotonic. destruct (_ <? end_time); [|reflexivity].
  destruct (select _ _) as [[[|]| | |] w1]; try reflexivity.
  destruct (stdout_read 1 w1) as [[data| | |] w2]; try reflexivity.
  destruct (truthy data); [apply IH | reflexivity].
Qed.

Lemma read_buffered_loop_engine (fuel : nat) :
  forall (out : bytes) (w : World),
    SubprocessConnection.read_buffered_loop fuel out w
    = engine fuel never None out w.
Proof.
  induction fuel as [|fuel IH]; intros out w; simpl; [reflexivity|].
  unfold bind. destruct (select _ _) as [[[|]| | |] w1]; try reflexivity.
  destruct (stdout_read 1 w1) as [[data| | |] w2]; try reflexivity.
  destruct (truthy data); [apply IH | reflexivity].
Qed.

Lemma read_engine (fuel : nat) (num_bytes : Z) (w : World) :
  SubprocessConnection.read fuel num_bytes w
  = engine fuel (length_reached num_bytes)
      (Some (clock (tick w) + _timeout w)) [] (started w).
Proof.
  unfold SubprocessConnection.read, bind, monotonic, started. simpl.
  rewrite read_loop_engine. do 3 f_equal. unfold tick. now destruct (delays w).
Qed.

Lemma read_until_engine (fuel : nat) (ending : bytes) (w : World) :
  SubprocessConnection.read_until fuel ending w
  = engine fuel (ending_found ending)
      (Some (clock (tick w) + _timeout w)) [] (started w).
Proof.
  unfold SubprocessConnection.read_until, bind, monotonic, started. simpl.
  rewrite read_until_loop_engine. do 3 f_equal. unfold tick. now destruct (delays w).
Qed.

Lemma read_buffered_engine (fuel : nat) (w : World) :
  SubprocessConnection.read_buffered fuel w = engine fuel never None [] w.
Proof. apply read_buffered_loop_engine. Qed.

(** ** The world in which [read] and [read_until] start their loop *)

Lemma started_pipe (w : World) : stdout_pipe (started w) = stdout_pipe w.
Proof. unfold started. simpl. apply tick_pipe. Qed.

Lemma started_stdout (w : World) : stdout (started w) = stdout w.
Proof. unfold started. simpl. apply tick_stdout. Qed.

Lemma started_unread (w : World) : unread (started w) = unread w.
Proof. unfold unread. now rewrite started_pipe, started_stdout. Qed.

Lemma same_io_started (w : World) : same_io w (started w).
Proof.
  unfold started. apply (same_io_trans _ (tick w)); [apply tick_same_io|].
  unfold same_io. simpl. repeat split.
Qed.

Lemma started_time_left (w : World) :
  time_left (Some (clock (tick w) + _timeout w)) (started w) = Z.max 0 (_timeout w).
Proof. unfold time_left, started. simpl. f_equal. lia. Qed.

Lemma started_ideal (w : World) :
  delays w = [] ->
  delays (started w) = [] /\ clock (started w) = clock w /\
  stdout_pipe (started w) = stdout_pipe w /\ clock (tick w) = clock w.
Proof. intros Hd. unfold started. rewrite (tick_ideal w Hd). now simpl. Qed.

(** The facts of a run of [read] or [read_until], seen from the world of
    the call. *)
Lemma engine_started (fuel : nat) (stop : bytes -> bool) (w : World) :
  let end_time := clock (tick w) + _timeout w in
  let run := engine fuel stop (Some end_time) [] (started w) in
  exists cs taken evs,
    engine_facts fuel stop (Some end_time) [] (started w) (fst run) (snd run)
      cs taken evs /\
    stdout_pipe w = cs ++ stdout_pipe (snd run) /\
    held (stdout w) ++ map snd cs = taken ++ held (stdout (snd run)) /\
    log (snd run) = log w ++ EvMonotonic (clock (tick w)) :: evs /\
    0 <= blocked_time evs <= Z.max 0 (_timeout w) /\
    match fst run with
    | Ok out => out = taken
    | OutOfFuel => (fuel <= length taken)%nat
    | Raise e => e = OverflowError /\ taken = [] /\ select_limit w < _timeout w
    | Blocked => False
    end.
Proof.
  intros end_time run.
  destruct (engine_run fuel stop (Some end_time) [] (started w)) as (cs & taken & evs & F).
  exists cs, taken, evs. split; [exact F|].
  destruct F as [Fp Fh _ Fr _ Fl _ Fb _ _ _ _]. fold run in Fp, Fh, Fr, Fl.
  rewrite started_pipe in Fp. rewrite started_stdout in Fh.
  subst end_time. rewrite started_time_left in Fb, Fr.
  split; [exact Fp|]. split; [exact Fh|].
  split; [rewrite Fl; unfold started; simpl; now rewrite tick_log, <- app_assoc|].
  split; [exact Fb|].
  assert (E : select_limit (started w) = select_limit w) by apply same_io_started.
  rewrite E in Fr.
  destruct (fst run); cbn [app] in *; auto.
  repeat split; try tauto. lia.
Qed.

(** Once the deadline is reached the engine neither waits nor reads. *)
Lemma engine_expired (fuel : nat) (stop : bytes -> bool) (end_time : Z)
    (out : bytes) (w : World) :
  end_time <= clock w ->
  engine (S fuel) stop (Some end_time) out w
  = (Ok out, if stop out then w else started w).
Proof.
  intros Hc. simpl. destruct (stop out); [reflexivity|].
  unfold bind, monotonic, started. pose proof (tick_clock w).
  now rewrite (proj2 (Z.ltb_ge (clock (tick w)) end_time)) by lia.
Qed.

(** With a timeout that is not positive, [read] and [read_until] return at
    once, whatever the world. *)
Lemma engine_no_time (fuel : nat) (stop : bytes -> bool) (w : World) :
  _timeout w <= 0 ->
  engine (S fuel) stop (Some (clock (tick w) + _timeout w)) [] (started w)
  = (Ok [], if stop [] then started w else started (started w)).
Proof.
  intros Ht. apply engine_expired. unfold started. simpl. lia.
Qed.

(** A run with enough unrolling and a deadline within the limit of the
    selector returns. *)
Lemma engine_returns (fuel : nat) (stop : bytes -> bool) (deadline : option Z)
    (out : bytes) (w : World) :
  (length (unread w) < fuel)%nat ->
  time_left deadline w <= Z.max 0 (select_limit w) ->
  exists cs taken,
    fst (engine fuel stop deadline out w) = Ok (out ++ taken) /\
    stdout_pipe w = cs ++ stdout_pipe (snd (engine fuel stop deadline out w)) /\
    held (stdout w) ++ map snd cs
      = taken ++ held (stdout (snd (engine fuel stop deadline out w))).
Proof.
  intros Hf Hlim.
  destruct (engine_run fuel stop deadline out w)
    as (cs & taken & evs & [Fp Fh _ Fr _ _ _ _ _ _ _ _]).
  exists cs, taken. split; [|split; [exact Fp | exact Fh]].
  assert (Hlen : (length taken <= length (unread w))%nat).
  { unfold unread. rewrite Fp, map_app, app_assoc, Fh, !length_app. lia. }
  destruct (fst (engine _ _ _ _ _)) as [out'| e | |]; simpl in Fr.
  - now subst out'.
  - lia.
  - contradiction.
  - lia.
Qed.

(** ** The engine over the pipe itself, when computing takes no time

    With no time lost between calls, a reader that is the pipe itself and
    waits that the selector accepts, the engine before a deadline gathers
    from the bytes that arrive strictly before the deadline. *)

Lemma select_ideal (wait : Z) (w : World) :
  delays w = [] -> (0 < wait -> wait <= select_limit w) ->
  select wait w = select_wait wait w.
Proof.
  intros Hd Hl. unfold select. rewrite (tick_ideal w Hd).
  destruct (Z.ltb_spec 0 wait) as [Hpos|]; [|reflexivity].
  now rewrite (proj2 (Z.ltb_ge (select_limit w) wait)) by auto.
Qed.

Lemma stdout_read_ideal_raw (size : nat) (w : World) :
  delays w = [] -> stdout w = RawReader -> stdout_read size w = raw_read size w.
Proof. intros Hd Hr. unfold stdout_read. now rewrite (tick_ideal w Hd), Hr. Qed.

Lemma engine_ideal (fuel : nat) (stop : bytes -> bool) (end_time : Z) :
  forall (out : bytes) (w : World),
    delays w = [] ->
    stdout w = RawReader ->
    end_time - clock w <= select_limit w ->
    clock w < end_time ->
    (length (stdout_pipe w) < fuel)%nat ->
    fst (engine fuel stop (Some end_time) out w)
      = Ok (gather stop out (map snd (arrived_before end_time (stdout_pipe w))))
    /\ clock (snd (engine fuel stop (Some end_time) out w)) <= end_time.
Proof.
  induction fuel as [|fuel IH]; intros out w Hd Hraw Hlim Hc Hf; [lia|].
  simpl. destruct (stop out) eqn:Hstop.
  { simpl. split; [|lia].
    destruct (map snd (arrived_before end_time (stdout_pipe w))); simpl;
      now rewrite ?Hstop. }
  unfold bind, monotonic. rewrite (tick_ideal w Hd).
  rewrite (proj2 (Z.ltb_lt _ _) Hc).
  rewrite select_ideal by (simpl; auto).
  unfold select_wait, next_readable. simpl.
  destruct (stdout_pipe w) as [|[t b] rest] eqn:Hp; simpl.
  - destruct (stdout_eof w) as [t|] eqn:He; simpl.
    + destruct (t <=? clock w) eqn:E1; [|destruct (t <? clock w + (end_time - clock w)) eqn:E2];
        simpl; try (split; [reflexivity | lia]).
      * rewrite stdout_read_ideal_raw by (simpl; auto).
        unfold raw_read, pipe_read. simpl. rewrite Hp, He. simpl.
        split; [reflexivity|]. apply Z.leb_le in E1. lia.
      * rewrite stdout_read_ideal_raw by (simpl; auto).
        unfold raw_read, pipe_read. simpl. rewrite Hp, He. simpl.
        split; [reflexivity|]. apply Z.ltb_lt in E2. lia.
    + split; [reflexivity | lia].
  - destruct (t <=? clock w) eqn:E1; [|destruct (t <? clock w + (end_time - clock w)) eqn:E2].
    + apply Z.leb_le in E1.
      rewrite (proj2 (Z.ltb_lt t end_time)) by lia. simpl.
      rewrite Hstop.
      rewrite stdout_read_ideal_raw by (simpl; auto).
      unfold raw_read, pipe_read. simpl. rewrite Hp. simpl.
      rewrite (proj2 (Z.leb_le t (Z.max (clock w) t))) by lia. simpl.
      apply IH; simpl; try assumption; simpl in Hf; lia.
    + apply Z.leb_gt in E1. apply Z.ltb_lt in E2.
      rewrite (proj2 (Z.ltb_lt t end_time)) by lia. simpl.
      rewrite Hstop.
      rewrite stdout_read_ideal_raw by (simpl; auto).
      unfold raw_read, pipe_read. simpl. rewrite Hp. simpl.
      rewrite (proj2 (Z.leb_le t (Z.max t t))) by lia. simpl.
      apply IH; simpl; try assumption; simpl in Hf; lia.
    + apply Z.ltb_ge in E2.
      rewrite (proj2 (Z.ltb_ge t end_time)) by lia. simpl. split; [reflexivity | lia].
Qed.

(** With no time lost between calls and a reader that is the pipe itself,
    the engine without a deadline drains what has arrived and leaves the
    clock alone. *)
Lemma engine_poll_ideal (fuel : nat) :
  forall (out : bytes) (w : World),
    delays w = [] ->
    stdout w = RawReader ->
    (length (stdout_pipe w) < fuel)%nat ->
    fst (engine fuel never None out w)
      = Ok (out ++ map snd (arrived_by (clock w) (stdout_pipe w)))
    /\ clock (snd (engine fuel never None out w)) = clock w.
Proof.
  induction fuel as [|fuel IH]; intros out w Hd Hraw Hf; [lia|].
  simpl. unfold bind. rewrite select_ideal by (auto; lia).
  unfold select_wait, next_readable.
  destruct (stdout_pipe w) as [|[t b] rest] eqn:Hp; simpl.
  - rewrite app_nil_r. destruct (stdout_eof w) as [t|] eqn:He; simpl.
    + destruct (t <=? clock w) eqn:E1; [|destruct (t <? clock w + 0) eqn:E2]; simpl.
      * rewrite stdout_read_ideal_raw by (simpl; auto).
        unfold raw_read, pipe_read. simpl. rewrite Hp, He. simpl.
        split; [reflexivity|]. apply Z.leb_le in E1. lia.
      * apply Z.leb_gt in E1. apply Z.ltb_lt in E2. lia.
      * split; [reflexivity | lia].
    + split; [reflexivity | lia].
  - destruct (t <=? clock w) eqn:E1; [|destruct (t <? clock w + 0) eqn:E2]; simpl.
    + apply Z.leb_le in E1.
      rewrite stdout_read_ideal_raw by (simpl; auto).
      unfold raw_read, pipe_read. simpl. rewrite Hp. simpl.
      rewrite (proj2 (Z.leb_le t (Z.max (clock w) t))) by lia. simpl.
      match goal with |- context [engine fuel never None _ ?w2] =>
        destruct (IH (out ++ [b]) w2) as [IH1 IH2];
          [exact Hd | exact Hraw | simpl; simpl in Hf; lia |]
      end.
      simpl in IH1, IH2. rewrite IH1, IH2, <- app_assoc. simpl.
      replace (Z.max (clock w) t) with (clock w) by lia. split; reflexivity.
    + apply Z.leb_gt in E1. apply Z.ltb_lt in E2. lia.
    + rewrite app_nil_r. split; [reflexivity | lia].
Qed.

(** ** Gathering *)

Lemma gather_length_reached (num_bytes : Z) :
  forall (avail out : bytes),
    gather (length_reached num_bytes) out avail
    = out ++ firstn (Z.to_nat num_bytes - length out) avail.
Proof.
  induction avail as [|b avail IH]; intros out; simpl.
  - now rewrite firstn_nil, app_nil_r.
  - unfold length_reached at 1. destruct (Z.ltb_spec (Z.of_nat (length out)) num_bytes); simpl.
    + rewrite IH, length_app. simpl.
      replace (Z.to_nat num_bytes - length out)%nat
        with (S (Z.to_nat num_bytes - (length out + 1)))%nat by lia.
      simpl. now rewrite <- app_assoc.
    + replace (Z.to_nat num_bytes - length out)%nat with O by lia.
      now rewrite app_nil_r.
Qed.

Lemma gather_prefix (stop : bytes -> bool) :
  forall (avail out : bytes),
    exists k, gather stop out avail = out ++ firstn k avail.
Proof.
  induction avail as [|b avail IH]; intros out; simpl.
  - exists O. now rewrite app_nil_r.
  - destruct (stop out).
    + exists O. now rewrite app_nil_r.
    + destruct (IH (out ++ [b])) as [k ->]. exists (S k). now rewrite <- app_assoc.
Qed.

Lemma gather_all_or_stopped (stop : bytes -> bool) :
  forall (avail out : bytes),
    stop (gather stop out avail) = true \/ gather stop out avail = out ++ avail.
Proof.
  induction avail as [|b avail IH]; intros out; simpl.
  - right. now rewrite app_nil_r.
  - destruct (stop out) eqn:E; [now left|].
    destruct (IH (out ++ [b])) as [H|H]; [now left|right]. now rewrite H, <- app_assoc.
Qed.

Lemma gather_stops (stop : bytes -> bool) :
  forall (avail out : bytes) (k : nat),
    stop (out ++ firstn k avail) = true ->
    stop (gather stop out avail) = true.
Proof.
  induction avail as [|b avail IH]; intros out k Hk; simpl.
  - now rewrite firstn_nil, app_nil_r in Hk.
  - destruct (stop out) eqn:E; [exact E|].
    destruct k as [|k]; simpl in Hk.
    + rewrite app_nil_r in Hk. congruence.
    + apply (IH _ k). now rewrite <- app_assoc.
Qed.

(** Gathering up to an ending: the result ends with it exactly when it
    occurs among the available bytes. *)
Lemma gather_ending_found (ending avail : bytes) :
  endswith (gather (ending_found ending) [] avail) ending = true
  <-> occurs_in ending avail.
Proof.
  split.
  - intros H. apply endswith_suffix in H as [pre Hpre].
    destruct (gather_prefix (ending_found ending) avail []) as [k Hk].
    simpl in Hk. exists pre, (skipn k avail).
    rewrite app_assoc, <- Hpre, Hk. symmetry. apply firstn_skipn.
  - intros (pre & post & ->).
    apply (gather_stops (ending_found ending) _ [] (length (pre ++ ending))).
    simpl. unfold ending_found. apply endswith_suffix. exists pre.
    rewrite app_assoc, firstn_app, Nat.sub_diag, firstn_O, app_nil_r.
    now rewrite firstn_all.
Qed.

(** What [read] and [read_until] return over the pipe itself when
    computing takes no time. *)
Lemma engine_ideal_result (fuel : nat) (stop : bytes -> bool) (w : World) :
  delays w = [] ->
  stdout w = RawReader ->
  _timeout w <= select_limit w ->
  (length (stdout_pipe w) < fuel)%nat ->
  fst (engine fuel stop (Some (clock (tick w) + _timeout w)) [] (started w))
  = Ok (if 0 <? _timeout w then gather stop [] (arriving_in_time w) else []).
Proof.
  intros Hd Hraw Hlim Hf. destruct (started_ideal w Hd) as (Hd' & Hc' & Hp' & Hck).
  destruct (Z.ltb_spec 0 (_timeout w)) as [Ht|Ht].
  - destruct (engine_ideal fuel stop (clock (tick w) + _timeout w) [] (started w) Hd')
      as [E _].
    + now rewrite started_stdout.
    + assert (E : select_limit (started w) = select_limit w) by apply same_io_started.
      rewrite E. lia.
    + lia.
    + now rewrite Hp'.
    + rewrite E, Hp', Hck. reflexivity.
  - destruct fuel as [|fuel]; [lia|]. now rewrite engine_no_time by exact Ht.
Qed.

(** ** [read] and [read_until] against the stream *)

(** C1 (amended): on a connection whose output pipe is unbuffered, in a
    world where computing takes no time and with a timeout that the
    selector accepts, [read_until(ending)] returns; with a positive
    timeout what it returns ends with [ending] if and only if [ending]
    occurs among the bytes that reach the pipe strictly before the
    deadline, and when it does not, the call returns all of these bytes.
    With a timeout that is not positive the call returns no byte. *)
Theorem read_until_ends_iff_arrived (fuel : nat) (ending : bytes) (w : World) :
  stdout w = RawReader ->
  delays w = [] ->
  _timeout w <= select_limit w ->
  (length (stdout_pipe w) < fuel)%nat ->
  exists out,
    fst (SubprocessConnection.read_until fuel ending w) = Ok out /\
    (0 < _timeout w ->
       (endswith out ending = true <-> occurs_in ending (arriving_in_time w)) /\
       (endswith out ending = false -> out = arriving_in_time w)) /\
    (_timeout w <= 0 -> out = []).
Proof.
  intros Hraw Hd Hlim Hf. rewrite read_until_engine.
  rewrite engine_ideal_result by assumption.
  eexists. split; [reflexivity|].
  destruct (Z.ltb_spec 0 (_timeout w)) as [Ht|Ht].
  - split; [intros _ | lia]. split.
    + apply gather_ending_found.
    + intros Hends.
      destruct (gather_all_or_stopped (ending_found ending) (arriving_in_time w) [])
        as [H|H]; [unfold ending_found at 1 in H; congruence | exact H].
  - split; [lia | reflexivity].
Qed.

(** The echoed line, read up to its end within a timeout of 10. *)
Lemma read_until_ends_iff_arrived_witness :
  exists out,
    fst (SubprocessConnection.read_until 10 newline echo_world) = Ok out /\
    (0 < _timeout echo_world ->
       (endswith out newline = true <-> occurs_in newline (arriving_in_time echo_world)) /\
       (endswith out newline = false -> out = arriving_in_time echo_world)) /\
    (_timeout echo_world <= 0 -> out = []).
Proof.
  apply (read_until_ends_iff_arrived 10 newline echo_world);
    [reflexivity | reflexivity | vm_compute; discriminate | simpl; lia].
Defined.

(** C1 fails as stated.  Each time the line is in the pipe before the
    deadline (it arrived at 50, the call is made at 100), and
    [read_until] does not return it: with a timeout of zero it returns no
    byte; with a program that reaches its second reading of the clock
    after the deadline it returns no byte; with a timeout beyond what the
    selector accepts it raises [OverflowError]; and on a connection
    created without [bufsize=0] it returns [b"h"]. *)
Lemma read_until_misses_ending :
  (occurs_in newline (arriving_in_time (echo_world_with 0)) /\
   fst (SubprocessConnection.read_until 10 newline (echo_world_with 0)) = Ok []) /\
  (occurs_in newline (arriving_in_time slow_echo_world) /\
   fst (SubprocessConnection.read_until 10 newline slow_echo_world) = Ok []) /\
  (occurs_in newline (arriving_in_time (echo_world_with huge_timeout)) /\
   fst (SubprocessConnection.read_until 10 newline (echo_world_with huge_timeout))
     = Raise OverflowError) /\
  (occurs_in newline (arriving_in_time (buffered echo_world)) /\
   fst (SubprocessConnection.read_until 10 newline (buffered echo_world))
     = Ok ["h"%byte] /\
   endswith ["h"%byte] newline = false).
Proof.
  assert (H : occurs_in newline hello)
    by (exists ["h"; "e"; "l"; "l"; "o"]%byte, []; reflexivity).
  repeat split; try exact H; vm_compute; reflexivity.
Qed.

(** [read(n)] never gathers more than [n] bytes, whatever the world. *)
Lemma length_reached_bound (num_bytes : Z) (taken : bytes) :
  0 <= num_bytes ->
  (forall k, (k < length taken)%nat ->
     length_reached num_bytes ([] ++ firstn k taken) = false) ->
  Z.of_nat (length taken) <= num_bytes.
Proof.
  intros Hn Hmin. destruct taken as [|b taken]; [simpl; lia|].
  specialize (Hmin (length taken) ltac:(simpl; lia)).
  unfold length_reached in Hmin. apply negb_false_iff, Z.ltb_lt in Hmin.
  simpl app in Hmin. rewrite length_firstn in Hmin. simpl in *. lia.
Qed.

(** C2 (amended): for [n >= 0], [read(n)] never returns more than [n]
    bytes, in any world, and raises only when the timeout is beyond what
    the selector accepts.  On a connection whose output pipe is
    unbuffered, in a world where computing takes no time and with a
    positive timeout that the selector accepts, it returns the first [n]
    of the bytes that reach the pipe strictly before the deadline: exactly
    [n] bytes when that many arrive, and all of them when fewer do.  With
    a timeout that is not positive it returns no byte. *)
Theorem read_returns_first_arrived (fuel : nat) (num_bytes : Z) (w : World) :
  0 <= num_bytes ->
  (length (unread w) < fuel)%nat ->
  match fst (SubprocessConnection.read fuel num_bytes w) with
  | Ok out => Z.of_nat (length out) <= num_bytes
  | Raise e => e = OverflowError /\ select_limit w < _timeout w
  | Blocked | OutOfFuel => False
  end /\
  (stdout w = RawReader -> delays w = [] -> 0 < _timeout w <= select_limit w ->
     exists out,
       fst (SubprocessConnection.read fuel num_bytes w) = Ok out /\
       out = firstn (Z.to_nat num_bytes) (arriving_in_time w) /\
       (Z.to_nat num_bytes <= length (arriving_in_time w) ->
          length out = Z.to_nat num_bytes)%nat /\
       (length (arriving_in_time w) < Z.to_nat num_bytes ->
          out = arriving_in_time w)%nat) /\
  (_timeout w <= 0 -> fst (SubprocessConnection.read fuel num_bytes w) = Ok []).
Proof.
  intros Hn Hf. rewrite read_engine. split; [|split].
  - destruct (engine_started fuel (length_reached num_bytes) w)
      as (cs & taken & evs & F & Hp & Hh & _ & _ & Hr).
    cbv zeta in Hr.
    assert (Hlen : (length taken <= length (unread w))%nat).
    { unfold unread. rewrite Hp, map_app, app_assoc, Hh, !length_app. lia. }
    destruct (fst (engine _ _ _ _ _)) as [out|e| |].
    + subst out. apply length_reached_bound; [exact Hn|].
      exact (ef_minimal _ _ _ _ _ _ _ _ _ _ F).
    + tauto.
    + exact Hr.
    + lia.
  - intros Hraw Hd [Ht Hlim].
    assert (Hf' : (length (stdout_pipe w) < fuel)%nat).
    { unfold unread in Hf. rewrite length_app, length_map in Hf. lia. }
    rewrite engine_ideal_result by assumption.
    rewrite (proj2 (Z.ltb_lt 0 (_timeout w)) Ht).
    eexists. split; [reflexivity|].
    rewrite gather_length_reached. simpl. rewrite Nat.sub_0_r.
    split; [reflexivity|]. split.
    + intros Hle. now apply firstn_length_le.
    + intros Hlt. apply firstn_all2. lia.
  - intros Ht. destruct fuel as [|fuel]; [lia|].
    now rewrite engine_no_time by exact Ht.
Qed.

(** Three bytes of the echoed line, read within a timeout of 10. *)
Lemma read_returns_first_arrived_witness :
  match fst (SubprocessConnection.read 10 3 echo_world) with
  | Ok out => Z.of_nat (length out) <= 3
  | Raise e => e = OverflowError /\ select_limit echo_world < _timeout echo_world
  | Blocked | OutOfFuel => False
  end /\
  (stdout echo_world = RawReader -> delays echo_world = [] ->
   0 < _timeout echo_world <= select_limit echo_world ->
     exists out,
       fst (SubprocessConnection.read 10 3 echo_world) = Ok out /\
       out = firstn (Z.to_nat 3) (arriving_in_time echo_world) /\
       (Z.to_nat 3 <= length (arriving_in_time echo_world) ->
          length out = Z.to_nat 3)%nat /\
       (length (arriving_in_time echo_world) < Z.to_nat 3 ->
          out = arriving_in_time echo_world)%nat) /\
  (_timeout echo_world <= 0 -> fst (SubprocessConnection.read 10 3 echo_world) = Ok []).
Proof.
  apply (read_returns_first_arrived 10 3 echo_world); [lia | simpl; lia].
Defined.

(** C2 fails as stated.  Each time three bytes are in the pipe before the
    deadline, and [read(3)] does not return them: with a timeout of zero
    it returns no byte; with a program that reaches its second reading of
    the clock after the deadline it returns no byte; with a timeout beyond
    what the selector accepts it raises [OverflowError]; and on a
    connection created without [bufsize=0] it returns [b"h"]. *)
Lemma read_misses_arrived_bytes :
  ((3 <= length (arriving_in_time (echo_world_with 0)))%nat /\
   fst (SubprocessConnection.read 10 3 (echo_world_with 0)) = Ok []) /\
  ((3 <= length (arriving_in_time slow_echo_world))%nat /\
   fst (SubprocessConnection.read 10 3 slow_echo_world) = Ok []) /\
  ((3 <= length (arriving_in_time (echo_world_with huge_timeout)))%nat /\
   fst (SubprocessConnection.read 10 3 (echo_world_with huge_timeout))
     = Raise OverflowError) /\
  ((3 <= length (arriving_in_time (buffered echo_world)))%nat /\
   fst (SubprocessConnection.read 10 3 (buffered echo_world)) = Ok ["h"%byte]).
Proof.
  repeat split; try (vm_compute; reflexivity); vm_compute; lia.
Qed.

(** ** Deadlines, frames and normal returns *)

(** C3: in [read] and in [read_until] the deadline is the first reading of
    the clock plus the timeout; every later wait comes right after a fresh
    reading [now] of the clock, with [now] before the deadline, and is
    asked to last [deadline - now]; the time spent waiting, over the whole
    call, does not exceed the timeout; and in a world where computing
    takes no time the call is back by the deadline. *)
Theorem waits_use_remaining_time (fuel : nat) (num_bytes : Z) (ending : bytes)
    (w : World) :
  let start := clock (tick w) in
  let end_time := start + _timeout w in
  (exists evs,
     log (snd (SubprocessConnection.read fuel num_bytes w))
       = log w ++ EvMonotonic start :: evs /\
     waits_for_remaining end_time None evs = true /\
     0 <= blocked_time evs <= Z.max 0 (_timeout w)) /\
  (exists evs,
     log (snd (SubprocessConnection.read_until fuel ending w))
       = log w ++ EvMonotonic start :: evs /\
     waits_for_remaining end_time None evs = true /\
     0 <= blocked_time evs <= Z.max 0 (_timeout w)) /\
  (delays w = [] -> (length (stdout_pipe w) < fuel)%nat ->
     clock (snd (SubprocessConnection.read fuel num_bytes w))
       <= Z.max (clock w) end_time /\
     clock (snd (SubprocessConnection.read_until fuel ending w))
       <= Z.max (clock w) end_time).
Proof.
  intros start end_time. rewrite read_engine, read_until_engine.
  assert (G : forall stop,
            (exists evs,
               log (snd (engine fuel stop (Some end_time) [] (started w)))
                 = log w ++ EvMonotonic start :: evs /\
               waits_for_remaining end_time None evs = true /\
               0 <= blocked_time evs <= Z.max 0 (_timeout w)) /\
            (delays w = [] ->
             clock (snd (engine fuel stop (Some end_time) [] (started w)))
               <= Z.max (clock w) end_time)).
  { intros stop.
    destruct (engine_started fuel stop w) as (cs & taken & evs & F & _ & _ & Hl & Hb & _).
    split.
    - exists evs. split; [exact Hl|]. split; [|exact Hb].
      pose proof (ef_trace _ _ _ _ _ _ _ _ _ _ F) as Ht.
      now apply andb_true_iff in Ht.
    - intros Hd. destruct (started_ideal w Hd) as (Hd' & Hc' & _ & _).
      destruct (ef_ideal _ _ _ _ _ _ _ _ _ _ F Hd') as [_ Hc].
      unfold return_bound in Hc. rewrite Hc' in Hc. exact Hc. }
  split; [apply G | split; [apply G|]].
  intros Hd _. split; apply G; exact Hd.
Qed.

(** A reader that is the pipe itself stays so, and holds nothing. *)
Lemma raw_reader_holds_nothing (r r' : reader) :
  r = RawReader -> same_reader r r' -> held r = [] /\ held r' = [] /\ r' = RawReader.
Proof. intros ->. destruct r'; simpl; tauto. Qed.

(** C4: on a connection created as the constructor creates it when the
    caller says nothing of [bufsize], [read_until] takes bytes past the
    ending out of the pipe.  The byte [a] is queued and the bytes [\n] and
    [b] arrive together: [read_until(b"\n")] returns [b"a\n"], the pipe is
    then empty and [b] sits in the buffer of the reader, where no later
    call finds it: [read_buffered()] and [read(1)] both return [b""].  On
    a connection created with [bufsize=0] the same calls leave [b] in the
    pipe and [read_buffered()] returns it. *)
Theorem read_until_reads_past_ending :
  let w := buffered trailing_world in
  let w1 := snd (SubprocessConnection.read_until 10 newline w) in
  let v1 := snd (SubprocessConnection.read_until 10 newline trailing_world) in
  init__ (fun _ kwargs => Ok kwargs) 1000 [] None []
    = Ok (mkSubprocessFields
            [("stdin"%string, PIPE); ("stdout"%string, PIPE);
             ("text"%string, PyBool false)] 1000) /\
  (fst (SubprocessConnection.read_until 10 newline w) = Ok ["a"; "010"]%byte /\
   stdout_pipe w1 = [] /\
   held (stdout w1) = ["b"%byte] /\
   fst (SubprocessConnection.read_buffered 10 w1) = Ok [] /\
   fst (SubprocessConnection.read 10 1 w1) = Ok []) /\
  (fst (SubprocessConnection.read_until 10 newline trailing_world)
     = Ok ["a"; "010"]%byte /\
   stdout_pipe v1 = [(105, "b"%byte)] /\
   fst (SubprocessConnection.read_buffered 10 v1) = Ok ["b"%byte]).
Proof. repeat split; vm_compute; reflexivity. Qed.

(** What a run of [read] or [read_until] with enough unrolling gives. *)
Lemma started_run_returns (fuel : nat) (stop : bytes -> bool) (w : World) :
  (length (unread w) < fuel)%nat ->
  returns_or_refused
    (engine fuel stop (Some (clock (tick w) + _timeout w)) [] (started w)) w.
Proof.
  intros Hf.
  destruct (engine_started fuel stop w) as (cs & taken & evs & _ & Hp & Hh & _ & _ & Hr).
  cbv zeta in *.
  assert (Hlen : (length taken <= length (unread w))%nat).
  { unfold unread. rewrite Hp, map_app, app_assoc, Hh, !length_app. lia. }
  destruct (fst (engine _ _ _ _ _)) as [out|e| |] eqn:E.
  - left. exists out, cs. subst out. auto.
  - right. destruct Hr as (-> & _ & Hlim). auto.
  - contradiction.
  - lia.
Qed.

Lemma poll_run_returns (fuel : nat) (w : World) :
  (length (unread w) < fuel)%nat ->
  returns_what_it_took (engine fuel never None [] w) w.
Proof.
  intros Hf. destruct (engine_returns fuel never None [] w Hf) as (cs & taken & E & P & H).
  { simpl. lia. }
  exists taken, cs. auto.
Qed.

(** C5 (amended): with enough unrolling, [read_buffered] returns in every
    world, and [read] and [read_until] return in every world unless the
    selector refuses the wait, which it does only for a timeout beyond
    its limit: the expiry of the timeout and the end of the stream raise
    nothing, and a call never blocks for ever.  What a call returns is
    what it took from the stream, possibly nothing. *)
Theorem reads_return_normally (fuel : nat) (num_bytes : Z) (ending : bytes)
    (w : World) :
  (length (unread w) < fuel)%nat ->
  returns_or_refused (SubprocessConnection.read fuel num_bytes w) w /\
  returns_or_refused (SubprocessConnection.read_until fuel ending w) w /\
  returns_what_it_took (SubprocessConnection.read_buffered fuel w) w /\
  (_timeout w <= select_limit w ->
   returns_what_it_took (SubprocessConnection.read fuel num_bytes w) w /\
   returns_what_it_took (SubprocessConnection.read_until fuel ending w) w).
Proof.
  intros Hf. rewrite read_engine, read_until_engine, read_buffered_engine.
  pose proof (started_run_returns fuel (length_reached num_bytes) w Hf) as H1.
  pose proof (started_run_returns fuel (ending_found ending) w Hf) as H2.
  split; [exact H1|]. split; [exact H2|]. split; [now apply poll_run_returns|].
  intros Hlim. split.
  - destruct H1 as [H1|[_ H1]]; [exact H1 | lia].
  - destruct H2 as [H2|[_ H2]]; [exact H2 | lia].
Qed.

(** A child that closed its output, behind a buffered reader: the three
    reads return. *)
Lemma reads_return_normally_witness :
  let w := buffered closed_world in
  returns_or_refused (SubprocessConnection.read 10 5 w) w /\
  returns_or_refused (SubprocessConnection.read_until 10 newline w) w /\
  returns_what_it_took (SubprocessConnection.read_buffered 10 w) w /\
  (_timeout w <= select_limit w ->
   returns_what_it_took (SubprocessConnection.read 10 5 w) w /\
   returns_what_it_took (SubprocessConnection.read_until 10 newline w) w).
Proof.
  apply (reads_return_normally 10 5 newline (buffered closed_world)). simpl; lia.
Defined.

(** C5 fails as stated: with a timeout beyond what the selector accepts,
    [read] and [read_until] raise [OverflowError], whether bytes are
    queued or the stream is at its end. *)
Lemma reads_with_huge_timeout_raise :
  fst (SubprocessConnection.read 10 3 (echo_world_with huge_timeout))
    = Raise OverflowError /\
  fst (SubprocessConnection.read_until 10 newline (echo_world_with huge_timeout))
    = Raise OverflowError /\
  fst (SubprocessConnection.read 10 3 (set__timeout huge_timeout closed_world))
    = Raise OverflowError /\
  fst (SubprocessConnection.read_until 10 newline
         (buffered (set__timeout huge_timeout closed_world)))
    = Raise OverflowError.
Proof. repeat split; vm_compute; reflexivity. Qed.

(** ** [read_buffered] *)









(** ** Negative timeouts *)

(** C9 (amended): a negative timeout is not refused.  The setter stores it
    and a later [read] or [read_until] returns [b""] at once: nothing is
    raised and no byte is taken from the pipe. *)
Theorem negative_timeout_reads_nothing (fuel : nat) (value num_bytes : Z)
    (ending : bytes) (w : World) :
  value < 0 ->
  let w1 := snd (SubprocessConnection.timeout_setter value w) in
  fst (SubprocessConnection.timeout_setter value w) = Ok tt /\
  _timeout w1 = value /\
  fst (SubprocessConnection.read (S fuel) num_bytes w1) = Ok [] /\
  stdout_pipe (snd (SubprocessConnection.read (S fuel) num_bytes w1)) = stdout_pipe w /\
  fst (SubprocessConnection.read_until (S fuel) ending w1) = Ok [] /\
  stdout_pipe (snd (SubprocessConnection.read_until (S fuel) ending w1)) = stdout_pipe w.
Proof.
  intros Hv w1. split; [reflexivity|]. split; [reflexivity|].
  assert (Ht : _timeout w1 <= 0) by (simpl; lia).
  assert (Hp : forall b : bool,
            stdout_pipe (if b then started w1 else started (started w1)) = stdout_pipe w).
  { intros [|]; unfold started, emit; cbn [stdout_pipe]; now rewrite !tick_pipe. }
  rewrite read_engine, read_until_engine, !engine_no_time by exact Ht.
  cbn [fst snd]. rewrite !Hp. repeat split.
Qed.

(** A timeout of [-1] before the echoed line is read. *)
Lemma negative_timeout_reads_nothing_witness :
  let w1 := snd (SubprocessConnection.timeout_setter (-1) echo_world) in
  fst (SubprocessConnection.timeout_setter (-1) echo_world) = Ok tt /\
  _timeout w1 = -1 /\
  fst (SubprocessConnection.read 10 3 w1) = Ok [] /\
  stdout_pipe (snd (SubprocessConnection.read 10 3 w1)) = stdout_pipe echo_world /\
  fst (SubprocessConnection.read_until 10 newline w1) = Ok [] /\
  stdout_pipe (snd (SubprocessConnection.read_until 10 newline w1))
    = stdout_pipe echo_world.
Proof.
  apply (negative_timeout_reads_nothing 9 (-1) 3 newline echo_world). lia.
Defined.

(** C9 fails as stated: after a timeout of [-1] is set, [read(3)] raises
    nothing and returns [b""]. *)
Lemma negative_timeout_read_returns :
  -1 < 0 /\
  fst ((SubprocessConnection.timeout_setter (-1) ;; SubprocessConnection.read 10 3)
         echo_world) = Ok [] /\
  fst ((SubprocessConnection.timeout_setter (-1) ;;
        SubprocessConnection.read_until 10 newline) echo_world) = Ok [].
Proof. repeat split. Qed.

(** ** The scoped timeout override *)

(** The override on any connection whose [timeout] property behaves as an
    attribute: reading it returns the stored value and assigning it stores
    the new one. *)
Section TimeoutAttribute.

Context {W : Type} (self : Connection W).
Context (attribute : W -> Z) (store : Z -> W -> W).

Hypothesis timeout_reads : forall w, get_timeout self w = (Ok (attribute w), w).
Hypothesis timeout_stores : forall v w, set_timeout self v w = (Ok tt, store v w).

Lemma timeout_override_attribute (A : Type) (value : Z) (body : M W A) (w : W) :
  timeout_override self value body w
  = match body (store value w) with
    | (Ok a, w1) => (Ok a, store (attribute w) w1)
    | (Raise e, w1) => (Raise e, store (attribute w) w1)
    | (Blocked, w1) => (Blocked, w1)
    | (OutOfFuel, w1) => (OutOfFuel, w1)
    end.
Proof.
  unfold timeout_override, try_finally, bind at 1. rewrite timeout_reads.
  unfold bind at 1. rewrite timeout_stores.
  destruct (body (store value w)) as [[a|e| |] w1]; try reflexivity;
    unfold bind; now rewrite timeout_stores.
Qed.

End TimeoutAttribute.

(** On the base class the override fails on entry: the property is
    abstract and the block is not run. *)
Lemma timeout_override_abstract (W A : Type) (value : Z) (body : M W A) (w : W) :
  timeout_override (AbstractConnection W) value body w = (Raise NotImplementedError, w).
Proof. reflexivity. Qed.

(** C6: inside [with self.timeout_override(value)] the timeout is [value],
    and when the block is left, by returning or by raising, the timeout is
    again the one from before the block; the outcome of the block is the
    outcome of the whole statement. *)
Theorem timeout_override_restores (fuel : nat) (A : Type) (value : Z)
    (body : M World A) (w : World) :
  let self := SubprocessConnection.new fuel in
  let inside := set__timeout value w in
  let run := timeout_override self value body w in
  _timeout inside = value /\
  match body inside with
  | (Ok a, w1) =>
      run = (Ok a, set__timeout (_timeout w) w1) /\ _timeout (snd run) = _timeout w
  | (Raise e, w1) =>
      run = (Raise e, set__timeout (_timeout w) w1) /\ _timeout (snd run) = _timeout w
  | (Blocked, w1) => run = (Blocked, w1)
  | (OutOfFuel, w1) => run = (OutOfFuel, w1)
  end.
Proof.
  intros self inside run. split; [reflexivity|]. subst run inside.
  rewrite (timeout_override_attribute self _timeout set__timeout)
    by (intros; reflexivity).
  destruct (body (set__timeout value w)) as [[a|e| |] w1]; simpl; auto.
Qed.

(** ** Writing to a child that is gone *)

(** C7: [write(data)] returns [0] when the child has exited, whether the
    broken pipe shows at the write or at the flush, and otherwise the
    number of bytes the transport accepted, which then reached the
    child. *)
Theorem write_returns_accepted (data : bytes) (w : World) :
  fst (SubprocessConnection.write data w)
    = Ok (if child_exited w then O else accepted data w) /\
  (child_exited w = false -> stdin_buffer w = [] ->
   stdin_received (snd (SubprocessConnection.write data w))
     = stdin_received w ++ firstn (accepted data w) data).
Proof.
  unfold SubprocessConnection.write, try_except, bind, stdin_write, stdin_flush, accepted.
  destruct (stdin_buffered w) eqn:Hb, (child_exited w) eqn:Hx; simpl.
  - destruct (stdin_buffer w ++ data) as [|x l] eqn:E; simpl.
    + apply app_eq_nil in E as [_ ->]. split; [reflexivity | discriminate].
    + rewrite Hx. split; [reflexivity | discriminate].
  - destruct (stdin_buffer w ++ data) as [|x l] eqn:E; simpl.
    + apply app_eq_nil in E as [_ ->]. split; [reflexivity|].
      intros _ _. now rewrite app_nil_r.
    + rewrite Hx. simpl. split; [reflexivity|].
      intros _ Hnil. rewrite Hnil in E. simpl in E. subst data.
      now rewrite firstn_all.
  - destruct data as [|x data]; simpl.
    + destruct (stdin_buffer w); simpl; rewrite ?Hx; split; (reflexivity || discriminate).
    + split; [reflexivity | discriminate].
  - destruct (stdin_buffer w) eqn:Hbuf; simpl; rewrite ?Hx; simpl.
    + split; [reflexivity | intros _ _; reflexivity].
    + split; [reflexivity | intros _ Hnil; discriminate].
Qed.

(** ** The connection as a context manager *)

(** C10: [with self as c: body] hands the connection itself to the block
    and, when the block is left by returning or by raising, calls
    [close()] once, on the world the block left; the exception of the
    block goes on to the caller.  For the pipe-backed connection the child
    is killed exactly once more than during the block. *)
Theorem with_connection_closes_once :
  (forall (W : Type) (self : Connection W) (body : Connection W -> M W unit) (w : W),
     enter__ self w = (Ok self, w) /\
     with_connection self body w
     = match body self w with
       | (Ok u, w1) => (after_cleanup (Ok u) (fst (close self w1)), snd (close self w1))
       | (Raise e, w1) => (after_cleanup (Raise e) (fst (close self w1)), snd (close self w1))
       | (Blocked, w1) => (Blocked, w1)
       | (OutOfFuel, w1) => (OutOfFuel, w1)
       end) /\
  (forall (fuel : nat) (body : Connection World -> M World unit) (w : World),
     let self := SubprocessConnection.new fuel in
     let run := with_connection self body w in
     match fst (body self w) with
     | Ok _ | Raise _ =>
         fst run = fst (body self w) /\
         kills (log (snd run)) = S (kills (log (snd (body self w)))) /\
         child_exited (snd run) = true
     | _ => run = body self w
     end).
Proof.
  assert (G : forall (W : Type) (self : Connection W) (body : Connection W -> M W unit) (w : W),
     with_connection self body w
     = match body self w with
       | (Ok u, w1) => (after_cleanup (Ok u) (fst (close self w1)), snd (close self w1))
       | (Raise e, w1) => (after_cleanup (Raise e) (fst (close self w1)), snd (close self w1))
       | (Blocked, w1) => (Blocked, w1)
       | (OutOfFuel, w1) => (OutOfFuel, w1)
       end).
  { intros W self body w. unfold with_connection, with_stmt, enter__, exit__, bind, ret, raise.
    destruct (body self w) as [[[]|e| |] w1]; try reflexivity;
      destruct (close self w1) as [[[]|e'| |] w2]; reflexivity. }
  split.
  - intros W self body w. split; [reflexivity | apply G].
  - intros fuel body w self run. subst run. rewrite G.
    assert (K : forall l e, kills (l ++ [e]) = (kills l + kills [e])%nat).
    { induction l as [|x l IHl]; intros e; [reflexivity|].
      destruct x; simpl in *; rewrite ?IHl; reflexivity. }
    destruct (body self w) as [[[]|e| |] w1]; try reflexivity; subst self;
      unfold SubprocessConnection.new, close, SubprocessConnection.close, bind, kill, wait;
      cbn [fst snd];
      destruct (child_exited w1) eqn:Hx; simpl; rewrite ?Hx, !K; simpl;
      repeat split; lia.
Qed.

(** ** Scenarios *)

(** An echoed line is read up to its end. *)
Example scenario_echo :
  fst ((SubprocessConnection.write hello ;;
        SubprocessConnection.read_until 10 newline) echo_world) = Ok hello.
Proof. reflexivity. Qed.

(** Nothing to read: [read(10)] returns [b""] when the timeout has
    elapsed. *)
Example scenario_silent :
  fst (SubprocessConnection.read 10 10 silent_world) = Ok [] /\
  clock (snd (SubprocessConnection.read 10 10 silent_world)) = 110.
Proof. split; reflexivity. Qed.

(** Queued bytes are returned by [read_buffered] without any wait. *)
Example scenario_queued :
  fst (SubprocessConnection.read_buffered 10 echo_world) = Ok hello /\
  clock (snd (SubprocessConnection.read_buffered 10 echo_world)) = clock echo_world.
Proof. split; reflexivity. Qed.

(** Writing after the child was terminated returns [0]. *)
Example scenario_write_after_close :
  fst ((SubprocessConnection.close ;;
        SubprocessConnection.write ["x"%byte]) echo_world) = Ok O.
Proof. reflexivity. Qed.

(** An error raised under an override leaves the former timeout. *)
Example scenario_override_error :
  let run :=
    timeout_override (SubprocessConnection.new 10) 5 (raise (OtherError 0))
      echo_world in
  fst run = @Raise unit (OtherError 0) /\ _timeout (snd run) = 10.
Proof. split; reflexivity. Qed.

(** The stream closes before the ending comes: [read_until] returns what
    was there. *)
Example scenario_closed_stream :
  fst (SubprocessConnection.read_until 10 newline closed_world)
  = Ok ["h"; "i"]%byte.
Proof. reflexivity. Qed.

(** A program that loses twenty ticks after fixing its deadline finds the
    deadline passed, and reads nothing of what is queued. *)
Example scenario_slow_program :
  fst (SubprocessConnection.read 10 3 slow_echo_world) = Ok [].
Proof. reflexivity. Qed.

(** On a connection created without [bufsize=0] the echoed line is not
    read up to its end: the first read of one byte moves the whole line
    into the buffer of the reader, the selector then watches an empty
    pipe, and [read_until] returns [b"h"] when the timeout has elapsed. *)
Example scenario_echo_default :
  fst (SubprocessConnection.read_until 10 newline (buffered echo_world))
    = Ok ["h"%byte] /\
  clock (snd (SubprocessConnection.read_until 10 newline (buffered echo_world))) = 110 /\
  held (stdout (snd (SubprocessConnection.read_until 10 newline (buffered echo_world))))
    = ["e"; "l"; "l"; "o"; "010"]%byte.
Proof. repeat split; vm_compute; reflexivity. Qed.

(** A timeout of fifty minutes is within what the selector accepts; one
    of fifty days is not. *)
Example scenario_long_timeouts :
  fst (SubprocessConnection.read 10 3 (echo_world_with 3000000)) = Ok ["h"; "e"; "l"]%byte /\
  fst (SubprocessConnection.read 10 3 (echo_world_with 4320000000)) = Raise OverflowError.
Proof. split; vm_compute; reflexivity. Qed.

(** * Further properties of the code *)

(** ** Requests that ask for nothing *)

(** X2: [read(n)] with [n <= 0] returns [b""] after its one reading of the
    clock: it makes no readiness wait and no read, and leaves the pipe as
    it was, whatever the timeout and whatever is queued. *)
Theorem read_nothing_asked (fuel : nat) (num_bytes : Z) (w : World) :
  num_bytes <= 0 ->
  fst (SubprocessConnection.read (S fuel) num_bytes w) = Ok [] /\
  stdout_pipe (snd (SubprocessConnection.read (S fuel) num_bytes w)) = stdout_pipe w /\
  log (snd (SubprocessConnection.read (S fuel) num_bytes w))
    = log w ++ [EvMonotonic (clock (tick w))].
Proof.
  intros Hn. unfold SubprocessConnection.read, bind, monotonic. simpl.
  rewrite (proj2 (Z.ltb_ge 0 num_bytes) Hn). simpl.
  now rewrite tick_pipe, tick_log.
Qed.

(** [read(0)] while the echoed line is queued. *)
Lemma read_nothing_asked_witness :
  fst (SubprocessConnection.read 10 0 echo_world) = Ok [] /\
  stdout_pipe (snd (SubprocessConnection.read 10 0 echo_world)) = stdout_pipe echo_world /\
  log (snd (SubprocessConnection.read 10 0 echo_world))
    = log echo_world ++ [EvMonotonic (clock (tick echo_world))].
Proof. apply (read_nothing_asked 9 0 echo_world). lia. Defined.

(** X3: [read_until(b"")] returns [b""] after its one reading of the
    clock, since every byte string ends with the empty one: it makes no
    readiness wait and no read, whatever the timeout and whatever is
    queued. *)
Theorem read_until_empty_ending (fuel : nat) (w : World) :
  fst (SubprocessConnection.read_until (S fuel) [] w) = Ok [] /\
  stdout_pipe (snd (SubprocessConnection.read_until (S fuel) [] w)) = stdout_pipe w /\
  log (snd (SubprocessConnection.read_until (S fuel) [] w))
    = log w ++ [EvMonotonic (clock (tick w))].
Proof.
  unfold SubprocessConnection.read_until, bind, monotonic. simpl.
  now rewrite tick_pipe, tick_log.
Qed.

(** ** Requests in sequence *)

(** One request: with enough unrolling and a timeout that the selector
    accepts it returns, and what it returns and what it leaves unread is
    what was unread. *)
Lemma do_read_returns (fuel : nat) (c : read_call) (w : World) :
  (length (unread w) < fuel)%nat ->
  _timeout w <= select_limit w ->
  exists out cs,
    fst (do_read (SubprocessConnection.new fuel) c w) = Ok out /\
    stdout_pipe w = cs ++ stdout_pipe (snd (do_read (SubprocessConnection.new fuel) c w)) /\
    held (stdout w) ++ map snd cs
      = out ++ held (stdout (snd (do_read (SubprocessConnection.new fuel) c w))) /\
    same_io w (snd (do_read (SubprocessConnection.new fuel) c w)).
Proof.
  intros Hf Hlim.
  assert (Hs : forall stop,
            let run := engine fuel stop (Some (clock (tick w) + _timeout w)) []
                         (started w) in
            exists out cs,
              fst run = Ok out /\ stdout_pipe w = cs ++ stdout_pipe (snd run) /\
              held (stdout w) ++ map snd cs = out ++ held (stdout (snd run)) /\
              same_io w (snd run)).
  { intros stop run.
    destruct (started_run_returns fuel stop w Hf) as [(out & cs & E & P & H)|[_ H]];
      [|lia].
    exists out, cs. repeat (split; [assumption|]).
    destruct (engine_run fuel stop (Some (clock (tick w) + _timeout w)) [] (started w))
      as (cs' & taken & evs & F).
    eapply same_io_trans; [apply same_io_started | exact (ef_io _ _ _ _ _ _ _ _ _ _ F)]. }
  destruct c as [num_bytes|ending|]; simpl.
  - rewrite read_engine. apply Hs.
  - rewrite read_until_engine. apply Hs.
  - rewrite read_buffered_engine.
    destruct (poll_run_returns fuel w Hf) as (out & cs & E & P & H).
    exists out, cs. repeat (split; [assumption|]).
    destruct (engine_run fuel never None [] w) as (cs' & taken & evs & F).
    exact (ef_io _ _ _ _ _ _ _ _ _ _ F).
Qed.

(** X1: whatever reads a caller makes one after the other, with a timeout
    that the selector accepts, each of them returns, and no byte is lost
    or repeated between two calls: the replies put end to end, followed by
    what the reader holds, are what the reader held followed by the bytes
    that left the pipe, in order; so the replies followed by what is
    still unread are the stream as it was. *)
Theorem reads_in_sequence_lose_nothing (fuel : nat) (calls : list read_call) :
  forall w : World,
    (length (unread w) < fuel)%nat ->
    _timeout w <= select_limit w ->
    exists outs taken,
      fst (do_reads (SubprocessConnection.new fuel) calls w) = Ok outs /\
      length outs = length calls /\
      stdout_pipe w
        = taken ++ stdout_pipe (snd (do_reads (SubprocessConnection.new fuel) calls w)) /\
      held (stdout w) ++ map snd taken
        = concat outs
          ++ held (stdout (snd (do_reads (SubprocessConnection.new fuel) calls w))) /\
      unread w
        = concat outs ++ unread (snd (do_reads (SubprocessConnection.new fuel) calls w)).
Proof.
  assert (Hun : forall (w w' : World) (cs : list (Z * byte)) (out : bytes),
            stdout_pipe w = cs ++ stdout_pipe w' ->
            held (stdout w) ++ map snd cs = out ++ held (stdout w') ->
            unread w = out ++ unread w').
  { intros w w' cs out P H. unfold unread.
    now rewrite P, map_app, app_assoc, H, <- app_assoc. }
  induction calls as [|c calls IH]; intros w Hf Hlim.
  - exists [], []. simpl. rewrite app_nil_r. repeat split.
  - destruct (do_read_returns fuel c w Hf Hlim) as (out & cs & E & P & H & Hio).
    cbn [do_reads]. unfold bind.
    destruct (do_read (SubprocessConnection.new fuel) c w) as [r w1].
    simpl in E, P, H, Hio. subst r.
    pose proof (Hun _ _ _ _ P H) as U.
    destruct (IH w1) as (outs & taken & E' & L & P' & H' & U').
    { rewrite U, length_app in Hf. lia. }
    { destruct Hio as (Hl & _ & _ & _ & _ & _ & _ & Ht). rewrite Hl, Ht. exact Hlim. }
    destruct (do_reads (SubprocessConnection.new fuel) calls w1) as [r w2].
    simpl in E', P', H', U'. subst r. simpl.
    exists (out :: outs), (cs ++ taken).
    split; [reflexivity|]. split; [simpl; now rewrite L|].
    split; [now rewrite P, P', app_assoc|].
    split; [rewrite map_app, app_assoc, H, <- app_assoc, H'; now rewrite app_assoc|].
    now rewrite U, U', app_assoc.
Qed.

(** A line, then three bytes, then what is left, from a pipe that holds
    two lines behind a buffered reader. *)
Lemma reads_in_sequence_lose_nothing_witness :
  let w := buffered (ideal_world 100 (arriving 50 (hello ++ hello)) None 10) in
  let calls := [CallReadUntil newline; CallRead 3; CallReadBuffered] in
  exists outs taken,
    fst (do_reads (SubprocessConnection.new 20) calls w) = Ok outs /\
    length outs = length calls /\
    stdout_pipe w
      = taken ++ stdout_pipe (snd (do_reads (SubprocessConnection.new 20) calls w)) /\
    held (stdout w) ++ map snd taken
      = concat outs
        ++ held (stdout (snd (do_reads (SubprocessConnection.new 20) calls w))) /\
    unread w
      = concat outs ++ unread (snd (do_reads (SubprocessConnection.new 20) calls w)).
Proof.
  apply (reads_in_sequence_lose_nothing 20
           [CallReadUntil newline; CallRead 3; CallReadBuffered]
           (buffered (ideal_world 100 (arriving 50 (hello ++ hello)) None 10)));
    [simpl; lia | vm_compute; discriminate].
Defined.

(** ** The end of the stream and the silent stream *)

(** A [select] that the selector accepts, on a stream that is readable
    now, returns at once. *)
Lemma select_readable_now (wait : Z) (w : World) :
  readable_now w ->
  (0 < wait -> wait <= select_limit w) ->
  select wait w
  = (Ok true, emit (EvSelect wait (clock (tick w)) (clock (tick w)) true) (tick w)).
Proof.
  unfold readable_now, select. rewrite tick_limit. intros Hnow Hlim.
  assert (E : (0 <? wait) && (select_limit w <? wait) = false).
  { destruct (Z.ltb_spec 0 wait); [|reflexivity].
    now rewrite (proj2 (Z.ltb_ge (select_limit w) wait)) by auto. }
  rewrite E. unfold select_wait. rewrite tick_next_readable.
  destruct (next_readable w) as [t|]; [|tauto].
  pose proof (tick_clock w). now rewrite (proj2 (Z.leb_le t (clock (tick w)))) by lia.
Qed.

(** A read at the end of the stream, with nothing held by the reader,
    returns [b""] at once and leaves the stream at its end. *)
Lemma stdout_read_at_eof (w : World) (te : Z) :
  stdout_pipe w = [] -> stdout_eof w = Some te -> te <= clock w ->
  held (stdout w) = [] ->
  exists w',
    stdout_read 1 w = (Ok [], w') /\
    log w' = log w ++ [EvRead 1 (clock (tick w)) (clock (tick w)) []] /\
    stdout_pipe w' = [] /\ stdout_eof w' = Some te /\ held (stdout w') = [] /\
    clock w' = clock (tick w).
Proof.
  intros Hp He Ht Hh. unfold stdout_read. rewrite tick_stdout.
  pose proof (tick_clock w) as Hc.
  assert (Hr : pipe_read 1 (clock (tick w)) (stdout_pipe (tick w)) (stdout_eof (tick w))
               = Some ([], [], clock (tick w))).
  { rewrite tick_pipe, tick_eof, Hp, He. simpl.
    now replace (Z.max (clock (tick w)) te) with (clock (tick w)) by lia. }
  destruct (stdout w) as [|cap h] eqn:Es.
  - unfold raw_read. rewrite Hr. eexists. split; [reflexivity|]. simpl.
    rewrite tick_log, tick_eof, tick_stdout, Es. auto.
  - simpl in Hh. subst h. unfold buffered_read. cbn [buffered_take].
    assert (Hr' : pipe_read (Nat.max 1 cap) (clock (tick w)) (stdout_pipe (tick w))
                    (stdout_eof (tick w)) = Some ([], [], clock (tick w))).
    { rewrite tick_pipe, tick_eof, Hp, He. simpl.
      now replace (Z.max (clock (tick w)) te) with (clock (tick w)) by lia. }
    rewrite Hr'. eexists. split; [reflexivity|]. simpl.
    rewrite tick_log, tick_eof. auto.
Qed.

Lemma engine_at_eof (fuel : nat) (stop : bytes -> bool) (deadline : option Z)
    (out : bytes) (w : World) (te : Z) :
  stdout_pipe w = [] -> stdout_eof w = Some te -> te <= clock w ->
  held (stdout w) = [] ->
  time_left deadline w <= Z.max 0 (select_limit w) ->
  exists evs,
    fst (engine (S fuel) stop deadline out w) = Ok out /\
    log (snd (engine (S fuel) stop deadline out w)) = log w ++ evs /\
    blocked_time evs = 0.
Proof.
  intros Hp He Ht Hh Hlim. cbn [engine]. destruct (stop out).
  { exists []. simpl. now rewrite app_nil_r. }
  assert (Hnow : forall w0,
            stdout_pipe w0 = [] -> stdout_eof w0 = Some te -> te <= clock w0 ->
            readable_now w0).
  { intros w0 Hp0 He0 Ht0. unfold readable_now, next_readable. now rewrite Hp0, He0. }
  assert (Ha : (exists w1 evs1,
                  await deadline w = (Ok false, w1) /\
                  log w1 = log w ++ evs1 /\ blocked_time evs1 = 0) \/
               (exists w1 evs1,
                  await deadline w = (Ok true, w1) /\
                  log w1 = log w ++ evs1 /\ blocked_time evs1 = 0 /\
                  stdout_pipe w1 = [] /\ stdout_eof w1 = Some te /\
                  te <= clock w1 /\ held (stdout w1) = [])).
  { pose proof (tick_clock w) as Hc.
    destruct deadline as [end_time|]; unfold await, bind, monotonic.
    - destruct (Z.ltb_spec (clock (tick w)) end_time) as [Hlt|Hge].
      + set (w1 := emit (EvMonotonic (clock (tick w))) (tick w)).
        assert (Hp1 : stdout_pipe w1 = [])
          by (subst w1; unfold emit; cbn [stdout_pipe]; now rewrite tick_pipe).
        assert (He1 : stdout_eof w1 = Some te)
          by (subst w1; unfold emit; cbn [stdout_eof]; now rewrite tick_eof).
        assert (Hh1 : held (stdout w1) = [])
          by (subst w1; unfold emit; cbn [stdout]; now rewrite tick_stdout).
        assert (Hc1 : clock w1 = clock (tick w)) by reflexivity.
        assert (Hl1 : log w1 = log w ++ [EvMonotonic (clock (tick w))])
          by (subst w1; unfold emit; cbn [log]; now rewrite tick_log).
        assert (Hm1 : select_limit w1 = select_limit w)
          by (subst w1; unfold emit; cbn [select_limit]; apply tick_limit).
        pose proof (tick_clock w1) as Hc2.
        rewrite select_readable_now;
          [|apply Hnow; (assumption || lia) | unfold time_left in Hlim; lia].
        right. eexists. eexists. split; [reflexivity|].
        unfold emit at 1 2 3 4 5. cbn [log stdout_pipe stdout_eof clock stdout].
        rewrite tick_log, tick_pipe, tick_eof, tick_stdout, Hl1, <- app_assoc.
        split; [reflexivity|]. split; [simpl; lia|]. repeat split; (assumption || lia).
      + left. eexists. eexists. split; [reflexivity|].
        unfold emit. cbn [log]. rewrite tick_log. split; reflexivity.
    - rewrite select_readable_now; [|apply Hnow; (assumption || lia) | lia].
      right. eexists. eexists. split; [reflexivity|].
      unfold emit. cbn [log stdout_pipe stdout_eof clock stdout].
      rewrite tick_log, tick_pipe, tick_eof, tick_stdout.
      split; [reflexivity|]. split; [simpl; lia|]. repeat split; (assumption || lia). }
  unfold bind.
  destruct Ha as [(w1 & evs1 & -> & Hl1 & Hb1)
                 |(w1 & evs1 & -> & Hl1 & Hb1 & Hp1 & He1 & Ht1 & Hh1)].
  - exists evs1. simpl. auto.
  - destruct (stdout_read_at_eof w1 te Hp1 He1 Ht1 Hh1) as (w2 & -> & Hl2 & _).
    cbn [truthy ret fst snd]. eexists. split; [reflexivity|].
    split; [rewrite Hl2, Hl1, <- app_assoc; reflexivity|].
    rewrite blocked_time_app, Hb1. simpl. lia.
Qed.

(** X4: once the child has closed its output and everything it wrote was
    returned, [read], [read_until] and [read_buffered] return [b""]
    without spending any time in a wait, for every timeout that the
    selector accepts: the end of the stream is not waited out. *)
Theorem reads_at_end_of_stream_return_at_once (fuel : nat) (num_bytes : Z)
    (ending : bytes) (w : World) (te : Z) :
  stdout_pipe w = [] -> stdout_eof w = Some te -> te <= clock w ->
  held (stdout w) = [] ->
  _timeout w <= select_limit w ->
  (exists evs,
     fst (SubprocessConnection.read (S fuel) num_bytes w) = Ok [] /\
     log (snd (SubprocessConnection.read (S fuel) num_bytes w)) = log w ++ evs /\
     blocked_time evs = 0) /\
  (exists evs,
     fst (SubprocessConnection.read_until (S fuel) ending w) = Ok [] /\
     log (snd (SubprocessConnection.read_until (S fuel) ending w)) = log w ++ evs /\
     blocked_time evs = 0) /\
  (exists evs,
     fst (SubprocessConnection.read_buffered (S fuel) w) = Ok [] /\
     log (snd (SubprocessConnection.read_buffered (S fuel) w)) = log w ++ evs /\
     blocked_time evs = 0).
Proof.
  intros Hp He Ht Hh Hlim.
  assert (Hs : forall stop, exists evs,
            fst (engine (S fuel) stop (Some (clock (tick w) + _timeout w)) []
                   (started w)) = Ok [] /\
            log (snd (engine (S fuel) stop (Some (clock (tick w) + _timeout w)) []
                        (started w))) = log w ++ evs /\
            blocked_time evs = 0).
  { intros stop.
    destruct (engine_at_eof fuel stop (Some (clock (tick w) + _timeout w)) []
                (started w) te) as (evs & E & L & B).
    - now rewrite started_pipe.
    - unfold started. simpl. now rewrite tick_eof.
    - unfold started. simpl. pose proof (tick_clock w). lia.
    - now rewrite started_stdout.
    - rewrite started_time_left.
      assert (E : select_limit (started w) = select_limit w) by apply same_io_started.
      rewrite E. lia.
    - exists (EvMonotonic (clock (tick w)) :: evs). split; [exact E|].
      split; [|exact B]. rewrite L. unfold started. simpl.
      now rewrite tick_log, <- app_assoc. }
  rewrite read_engine, read_until_engine, read_buffered_engine.
  split; [apply Hs | split; [apply Hs|]].
  apply (engine_at_eof fuel never None [] w te); try assumption. simpl. lia.
Qed.

(** The child that wrote two bytes and closed, after both were read,
    behind a buffered reader. *)
Lemma reads_at_end_of_stream_return_at_once_witness :
  let w := buffered (ideal_world 100 [] (Some 60) 10) in
  (exists evs,
     fst (SubprocessConnection.read 10 5 w) = Ok [] /\
     log (snd (SubprocessConnection.read 10 5 w)) = log w ++ evs /\
     blocked_time evs = 0) /\
  (exists evs,
     fst (SubprocessConnection.read_until 10 newline w) = Ok [] /\
     log (snd (SubprocessConnection.read_until 10 newline w)) = log w ++ evs /\
     blocked_time evs = 0) /\
  (exists evs,
     fst (SubprocessConnection.read_buffered 10 w) = Ok [] /\
     log (snd (SubprocessConnection.read_buffered 10 w)) = log w ++ evs /\
     blocked_time evs = 0).
Proof.
  apply (reads_at_end_of_stream_return_at_once 9 5 newline
           (buffered (ideal_world 100 [] (Some 60) 10)) 60);
    [reflexivity | reflexivity | simpl; lia | reflexivity | vm_compute; discriminate].
Defined.

Lemma engine_silent (fuel : nat) (stop : bytes -> bool) (end_time : Z)
    (out : bytes) (w : World) :
  delays w = [] -> clock w < end_time -> stop out = false ->
  end_time - clock w <= select_limit w ->
  match next_readable w with Some t => end_time <= t | None => True end ->
  fst (engine (S fuel) stop (Some end_time) out w) = Ok out /\
  clock (snd (engine (S fuel) stop (Some end_time) out w)) = end_time.
Proof.
  intros Hd Hc Hstop Hlim Hnext. cbn [engine]. rewrite Hstop.
  unfold await, bind, monotonic. rewrite (tick_ideal w Hd).
  rewrite (proj2 (Z.ltb_lt _ _) Hc).
  rewrite select_ideal by (simpl; auto). unfold select_wait.
  change (next_readable (emit (EvMonotonic (clock w)) w)) with (next_readable w).
  cbn [clock emit].
  destruct (next_readable w) as [t|].
  - rewrite (proj2 (Z.leb_gt t (clock w))) by lia.
    rewrite (proj2 (Z.ltb_ge t (clock w + (end_time - clock w)))) by lia.
    simpl. split; [reflexivity | lia].
  - simpl. split; [reflexivity | lia].
Qed.

(** X5: in a world where computing takes no time, with a positive timeout
    that the selector accepts, when nothing becomes readable in the pipe
    before the deadline (no byte, no end of stream), [read(n)] for
    [n > 0] and [read_until(ending)] for a non-empty [ending] return
    [b""] exactly when the timeout has elapsed: not earlier and not
    later, whatever the reader holds. *)
Theorem silent_stream_waits_out_timeout (fuel : nat) (num_bytes : Z)
    (ending : bytes) (w : World) :
  delays w = [] -> 0 < _timeout w <= select_limit w ->
  0 < num_bytes -> ending <> [] ->
  match next_readable w with
  | Some t => clock w + _timeout w <= t
  | None => True
  end ->
  (fst (SubprocessConnection.read (S fuel) num_bytes w) = Ok [] /\
   clock (snd (SubprocessConnection.read (S fuel) num_bytes w))
     = clock w + _timeout w) /\
  (fst (SubprocessConnection.read_until (S fuel) ending w) = Ok [] /\
   clock (snd (SubprocessConnection.read_until (S fuel) ending w))
     = clock w + _timeout w).
Proof.
  intros Hd [Ht Hlim] Hn He Hnext. rewrite read_engine, read_until_engine.
  destruct (started_ideal w Hd) as (Hd' & Hc' & Hp' & Hck). rewrite Hck.
  assert (Hnext' : match next_readable (started w) with
                   | Some t => clock w + _timeout w <= t
                   | None => True
                   end).
  { unfold started. rewrite (tick_ideal w Hd). exact Hnext. }
  assert (Hlim' : clock w + _timeout w - clock (started w) <= select_limit (started w)).
  { assert (E : select_limit (started w) = select_limit w) by apply same_io_started.
    rewrite E, Hc'. lia. }
  split; apply engine_silent; try assumption; try lia.
  - unfold length_reached. simpl. now rewrite (proj2 (Z.ltb_lt 0 num_bytes) Hn).
  - unfold ending_found, endswith. destruct ending as [|b ending]; [congruence | reflexivity].
Qed.

(** The child that writes nothing, behind a buffered reader: ten ticks
    pass. *)
Lemma silent_stream_waits_out_timeout_witness :
  let w := buffered silent_world in
  (fst (SubprocessConnection.read 10 5 w) = Ok [] /\
   clock (snd (SubprocessConnection.read 10 5 w)) = clock w + _timeout w) /\
  (fst (SubprocessConnection.read_until 10 newline w) = Ok [] /\
   clock (snd (SubprocessConnection.read_until 10 newline w)) = clock w + _timeout w).
Proof.
  apply (silent_stream_waits_out_timeout 9 5 newline (buffered silent_world));
    [reflexivity | vm_compute; split; [reflexivity | discriminate] | lia | discriminate | exact I].
Defined.

(** ** What the operations leave alone *)


(** ** Closing and writing *)

Lemma write_to_exited_child (data : bytes) (w : World) :
  child_exited w = true -> fst (SubprocessConnection.write data w) = Ok O.
Proof.
  intros Hx.
  unfold SubprocessConnection.write, try_except, bind, stdin_write, stdin_flush.
  destruct (stdin_buffered w), data as [|x data], (stdin_buffer w) as [|y buf] eqn:Hb;
    do 3 (simpl; rewrite ?Hx, ?Hb); reflexivity.
Qed.

Lemma close_returns (w : World) :
  fst (SubprocessConnection.close w) = Ok tt /\
  child_exited (snd (SubprocessConnection.close w)) = true /\
  log (snd (SubprocessConnection.close w)) = log w ++ [EvKill; EvWait].
Proof.
  unfold SubprocessConnection.close, bind, kill, wait.
  destruct (child_exited w) eqn:Hx; simpl; rewrite <- ?app_assoc; simpl; auto.
Qed.

(** X7: [close()] returns normally in every world, kills the child and
    waits for it, in this order and once each; whatever is written after
    it is answered with [0], never with an exception. *)
Theorem write_after_close_returns_zero (data : bytes) (w : World) :
  fst (SubprocessConnection.close w) = Ok tt /\
  log (snd (SubprocessConnection.close w)) = log w ++ [EvKill; EvWait] /\
  fst ((SubprocessConnection.close ;; SubprocessConnection.write data) w) = Ok O.
Proof.
  destruct (close_returns w) as (Hr & Hx & Hl).
  split; [exact Hr|]. split; [exact Hl|].
  unfold bind at 1. destruct (SubprocessConnection.close w) as [[[]| | |] w1];
    simpl in Hr, Hx; try discriminate.
  now apply write_to_exited_child.
Qed.

(** X8: while the child lives, [write(data)] returns a count that is at
    most [len(data)] and leaves nothing behind in the writer's buffer:
    every write is flushed before it returns. *)
Theorem write_flushes (data : bytes) (w : World) :
  child_exited w = false ->
  exists k,
    fst (SubprocessConnection.write data w) = Ok k /\
    (k <= length data)%nat /\
    stdin_buffer (snd (SubprocessConnection.write data w)) = [] /\
    (length (stdin_received (snd (SubprocessConnection.write data w)))
     = length (stdin_received w) + length (stdin_buffer w) + k)%nat.
Proof.
  intros Hx.
  unfold SubprocessConnection.write, try_except, bind, stdin_write, stdin_flush.
  destruct (stdin_buffered w).
  - exists (length data). simpl.
    destruct (stdin_buffer w ++ data) as [|x l] eqn:E; simpl; rewrite ?Hx; simpl.
    + apply app_eq_nil in E as [-> ->]. simpl. repeat split; lia.
    + rewrite <- E, !length_app. repeat split; lia.
  - rewrite Hx. simpl.
    exists (Nat.min (length data) (stdin_room w)).
    destruct (stdin_buffer w) as [|y buf] eqn:Hb; simpl; rewrite ?Hx; simpl;
      rewrite ?length_app, ?length_firstn; simpl; repeat split;
      try assumption; lia.
Qed.

(** A line written to the echoing child. *)
Lemma write_flushes_witness :
  exists k,
    fst (SubprocessConnection.write hello echo_world) = Ok k /\
    (k <= length hello)%nat /\
    stdin_buffer (snd (SubprocessConnection.write hello echo_world)) = [] /\
    (length (stdin_received (snd (SubprocessConnection.write hello echo_world)))
     = length (stdin_received echo_world) + length (stdin_buffer echo_world) + k)%nat.
Proof. apply (write_flushes hello echo_world). reflexivity. Defined.

(** ** More on the scoped timeout override *)

(** X9: overrides nest.  Under [with timeout_override(a)] and, inside it,
    [with timeout_override(b)], the block runs with timeout [b]; when the
    inner statement is left the timeout is [a] again, and when the outer
    one is left it is the timeout from before both, on return and on raise
    alike. *)
Theorem timeout_overrides_nest (fuel : nat) (A : Type) (a b : Z)
    (body : M World A) (w : World) :
  let self := SubprocessConnection.new fuel in
  timeout_override self a
    (x <- timeout_override self b body ;;
     t <- get_timeout self ;;
     ret (x, t)) w
  = match body (set__timeout b w) with
    | (Ok x, w1) => (Ok (x, a), set__timeout (_timeout w) w1)
    | (Raise e, w1) => (Raise e, set__timeout (_timeout w) w1)
    | (Blocked, w1) => (Blocked, w1)
    | (OutOfFuel, w1) => (OutOfFuel, w1)
    end.
Proof.
  intros self.
  rewrite (timeout_override_attribute self _timeout set__timeout)
    by (intros; reflexivity).
  unfold bind at 1.
  rewrite (timeout_override_attribute self _timeout set__timeout)
    by (intros; reflexivity).
  change (set__timeout b (set__timeout a w)) with (set__timeout b w).
  destruct (body (set__timeout b w)) as [[x|e| |] w1]; reflexivity.
Qed.

(** The override on a connection whose timeout cannot be assigned the new
    value. *)
Section OverrideRefused.

Context {W : Type} (self : Connection W).

(** X10: when the assignment of the new timeout raises, the block is not
    run; the former timeout is assigned again, and the exception goes on
    to the caller (or the one of that second assignment, if it raises
    too). *)
Theorem timeout_override_refused (A : Type) (value former : Z) (e : exn)
    (body : M W A) (w w1 : W) :
  get_timeout self w = (Ok former, w) ->
  set_timeout self value w = (Raise e, w1) ->
  timeout_override self value body w
  = (set_timeout self former ;; raise e) w1.
Proof.
  intros Hget Hset. unfold timeout_override, try_finally, bind at 1. rewrite Hget.
  unfold bind at 1. now rewrite Hset.
Qed.

End OverrideRefused.

(** A strict port refuses [-1]: the block, which would raise an error of
    its own, is not run, and the timeout of the port stays 10. *)
Lemma timeout_override_refused_witness :
  timeout_override (SerialConnection.new (queue_port true)) (-1)
    (raise (OtherError 7)) (mkPort hello 10)
  = (set_timeout (SerialConnection.new (queue_port true)) 10 ;;
     @raise Port unit (OtherError 0)) (mkPort hello 10).
Proof.
  apply (timeout_override_refused (SerialConnection.new (queue_port true))
           unit (-1) 10 (OtherError 0) (raise (OtherError 7))
           (mkPort hello 10) (mkPort hello 10)); reflexivity.
Defined.

(** ** The serial backend over a port that keeps a queue *)

Section SerialPort.

Context {W : Type} (port : Serial W).
Context (waiting : W -> bytes).

(** What is assumed of the port: [in_waiting] counts the bytes received
    and not yet read, without touching them, and a read of no more than
    that many bytes returns them at once, oldest first. *)
Hypothesis in_waiting_counts :
  forall w, ser_in_waiting port w = (Ok (length (waiting w)), w).
Hypothesis read_takes_waiting :
  forall (n : nat) w, (n <= length (waiting w))%nat ->
    exists w', ser_read port (Z.of_nat n) w = (Ok (firstn n (waiting w)), w') /\
               waiting w' = skipn n (waiting w).

(** X11: over such a port [SerialConnection.read_buffered] returns exactly
    the bytes in waiting and leaves none; when none is in waiting it
    returns [b""] without calling [read] at all. *)
Theorem serial_read_buffered_drains (w : W) :
  exists w',
    SerialConnection.read_buffered port w = (Ok (waiting w), w') /\
    waiting w' = [] /\
    (waiting w = [] -> w' = w).
Proof.
  unfold SerialConnection.read_buffered, bind. rewrite in_waiting_counts.
  destruct (waiting w) as [|b bs] eqn:E; cbn [length].
  - exists w. auto.
  - rewrite in_waiting_counts, E. cbn [length].
    destruct (read_takes_waiting (S (length bs)) w) as (w' & Hr & Hw); [rewrite E; simpl; lia|].
    rewrite E in Hr, Hw. rewrite Hr. exists w'.
    change (S (length bs)) with (length (b :: bs)) in *.
    rewrite firstn_all. split; [reflexivity|].
    split; [|discriminate]. rewrite Hw. apply skipn_all.
Qed.

End SerialPort.

(** The queue port holding the echoed line. *)
Lemma serial_read_buffered_drains_witness :
  exists w',
    SerialConnection.read_buffered (queue_port true) (mkPort hello 10)
      = (Ok (port_waiting (mkPort hello 10)), w') /\
    port_waiting w' = [] /\
    (port_waiting (mkPort hello 10) = [] -> w' = mkPort hello 10).
Proof.
  apply (serial_read_buffered_drains (queue_port true) port_waiting).
  - intros w. reflexivity.
  - intros n w Hn. eexists. split; [simpl; rewrite Nat2Z.id|]; reflexivity.
Defined.

Section SerialTimeout.

Context {W : Type} (port : Serial W).
Context (port_attribute : W -> Z) (port_store : Z -> W -> W).

(** What is assumed of the port: its [timeout] is an attribute, read
    without effect and assigned without failure. *)
Hypothesis port_timeout_reads :
  forall w, ser_timeout port w = (Ok (port_attribute w), w).
Hypothesis port_timeout_stores :
  forall v w, ser_timeout_setter port v w = (Ok tt, port_store v w).

(** X12: on the serial backend the timeout of the connection is the
    timeout of the port: [timeout_override(value)] assigns [value] to the
    port for the time of the block and assigns the port's former timeout
    again when the block is left, by returning or by raising. *)
Theorem serial_timeout_override_restores (A : Type) (value : Z)
    (body : M W A) (w : W) :
  timeout_override (SerialConnection.new port) value body w
  = match body (port_store value w) with
    | (Ok a, w1) => (Ok a, port_store (port_attribute w) w1)
    | (Raise e, w1) => (Raise e, port_store (port_attribute w) w1)
    | (Blocked, w1) => (Blocked, w1)
    | (OutOfFuel, w1) => (OutOfFuel, w1)
    end.
Proof.
  apply (timeout_override_attribute (SerialConnection.new port)
           port_attribute port_store).
  - exact port_timeout_reads.
  - exact port_timeout_stores.
Qed.

End SerialTimeout.

(** A lenient port with a timeout of 10, overridden by 5 around a read
    that drains it. *)
Lemma serial_timeout_override_restores_witness :
  let port := queue_port false in
  let store := fun v s => mkPort (port_waiting s) v in
  let body := read_buffered (SerialConnection.new port) in
  let w := mkPort hello 10 in
  timeout_override (SerialConnection.new port) 5 body w
  = match body (store 5 w) with
    | (Ok a, w1) => (Ok a, store (port_timeout w) w1)
    | (Raise e, w1) => (Raise e, store (port_timeout w) w1)
    | (Blocked, w1) => (Blocked, w1)
    | (OutOfFuel, w1) => (OutOfFuel, w1)
    end.
Proof.
  apply (serial_timeout_override_restores (queue_port false) port_timeout
           (fun v s => mkPort (port_waiting s) v));
    intros; reflexivity.
Defined.

(** ** The base class *)

(** X13: on the base class, whose [close] and [timeout] are abstract,
    [timeout_override] raises [NotImplementedError] before the block is
    run and leaves the world as it was, and a [with] statement on the
    connection runs its block and then raises [NotImplementedError] from
    [close], which replaces the outcome of the block. *)
Theorem abstract_connection_raises (W A : Type) (value : Z) (block : M W A)
    (body : Connection W -> M W unit) (w : W) :
  timeout_override (AbstractConnection W) value block w
    = (Raise NotImplementedError, w) /\
  with_connection (AbstractConnection W) body w
    = match body (AbstractConnection W) w with
      | (Ok _, w1) | (Raise _, w1) => (Raise NotImplementedError, w1)
      | (Blocked, w1) => (Blocked, w1)
      | (OutOfFuel, w1) => (OutOfFuel, w1)
      end.
Proof.
  split; [reflexivity|].
  unfold with_connection, with_stmt, enter__, exit__, bind, ret, raise.
  destruct (body (AbstractConnection W) w) as [[[]|e| |] w1]; reflexivity.
Qed.

(** ** A longer timeout *)

Lemma arrived_before_later (t1 t2 : Z) (p : list (Z * byte)) :
  t1 <= t2 ->
  exists rest, arrived_before t2 p = arrived_before t1 p ++ rest.
Proof.
  intros Ht. induction p as [|[a b] p [rest IH]]; simpl.
  - now exists [].
  - destruct (Z.ltb_spec a t1).
    + rewrite (proj2 (Z.ltb_lt a t2)) by lia. exists rest. now rewrite IH.
    + eexists. reflexivity.
Qed.

Lemma gather_more_available (stop : bytes -> bool) :
  forall (avail more out : bytes),
    exists rest, gather stop out (avail ++ more) = gather stop out avail ++ rest.
Proof.
  induction avail as [|b avail IH]; intros more out; simpl.
  - destruct (gather_prefix stop more out) as [k ->]. eexists. reflexivity.
  - destruct (stop out); [exists []; now rewrite app_nil_r | apply IH].
Qed.

(** X14: on a connection whose output pipe is unbuffered, in a world where
    computing takes no time, a longer timeout that the selector accepts
    never costs a byte: what [read(n)] and [read_until(ending)] return
    under a timeout is the beginning of what they return, from the same
    world, under any longer one. *)
Theorem longer_timeout_reads_no_less (fuel : nat) (num_bytes : Z) (ending : bytes)
    (t1 t2 : Z) (w : World) :
  stdout w = RawReader ->
  delays w = [] ->
  t1 <= t2 <= select_limit w ->
  (length (stdout_pipe w) < fuel)%nat ->
  (exists out rest,
     fst (SubprocessConnection.read fuel num_bytes (set__timeout t1 w)) = Ok out /\
     fst (SubprocessConnection.read fuel num_bytes (set__timeout t2 w))
       = Ok (out ++ rest)) /\
  (exists out rest,
     fst (SubprocessConnection.read_until fuel ending (set__timeout t1 w)) = Ok out /\
     fst (SubprocessConnection.read_until fuel ending (set__timeout t2 w))
       = Ok (out ++ rest)).
Proof.
  intros Hraw Hd [Ht Hlim] Hf.
  assert (G : forall stop, exists out rest,
            (if 0 <? t1 then gather stop [] (arriving_in_time (set__timeout t1 w)) else [])
              = out /\
            (if 0 <? t2 then gather stop [] (arriving_in_time (set__timeout t2 w)) else [])
              = out ++ rest).
  { intros stop. unfold arriving_in_time. cbn [clock _timeout stdout_pipe set__timeout].
    destruct (Z.ltb_spec 0 t1) as [H1|H1].
    - rewrite (proj2 (Z.ltb_lt 0 t2)) by lia.
      destruct (arrived_before_later (clock w + t1) (clock w + t2) (stdout_pipe w))
        as [more ->]; [lia|].
      rewrite map_app.
      destruct (gather_more_available stop
                  (map snd (arrived_before (clock w + t1) (stdout_pipe w)))
                  (map snd more) []) as [rest ->].
      eexists. exists rest. split; reflexivity.
    - exists []. eexists. split; reflexivity. }
  rewrite !read_engine, !read_until_engine.
  rewrite !engine_ideal_result by (simpl; (assumption || lia)).
  cbn [_timeout set__timeout].
  split.
  - destruct (G (length_reached num_bytes)) as (out & rest & E1 & E2).
    exists out, rest. now rewrite E1, E2.
  - destruct (G (ending_found ending)) as (out & rest & E1 & E2).
    exists out, rest. now rewrite E1, E2.
Qed.

(** Two bytes that arrive two and seven ticks after the call, read with a
    timeout of five and with one of ten. *)
Lemma longer_timeout_reads_no_less_witness :
  (exists out rest,
     fst (SubprocessConnection.read 10 3 (set__timeout 5 trickling_world)) = Ok out /\
     fst (SubprocessConnection.read 10 3 (set__timeout 10 trickling_world))
       = Ok (out ++ rest)) /\
  (exists out rest,
     fst (SubprocessConnection.read_until 10 newline (set__timeout 5 trickling_world))
       = Ok out /\
     fst (SubprocessConnection.read_until 10 newline (set__timeout 10 trickling_world))
       = Ok (out ++ rest)).
Proof.
  apply (longer_timeout_reads_no_less 10 3 newline 5 10 trickling_world);
    [reflexivity | reflexivity | vm_compute; split; discriminate | simpl; lia].
Defined.

(** ** Draining twice *)

Lemma arrived_by_rest (c : Z) (p : list (Z * byte)) :
  arrived_by c (skipn (length (arrived_by c p)) p) = [].
Proof.
  induction p as [|[a b] p IH]; simpl; [reflexivity|].
  destruct (a <=? c) eqn:E; simpl; [exact IH | now rewrite E].
Qed.

(** X15: on a connection whose output pipe is unbuffered, in a world where
    computing takes no time, [read_buffered] returns all the bytes that
    have arrived, and called again right after it returns [b""]. *)
Theorem read_buffered_twice (fuel : nat) (w : World) :
  stdout w = RawReader ->
  delays w = [] ->
  (length (stdout_pipe w) < fuel)%nat ->
  fst (SubprocessConnection.read_buffered fuel w)
    = Ok (map snd (arrived_by (clock w) (stdout_pipe w))) /\
  fst (SubprocessConnection.read_buffered fuel
         (snd (SubprocessConnection.read_buffered fuel w))) = Ok [].
Proof.
  intros Hraw Hd Hf. rewrite !read_buffered_engine.
  destruct (engine_poll_ideal fuel [] w Hd Hraw Hf) as [E Hc].
  destruct (engine_run fuel never None [] w)
    as (cs & taken & evs & [Fp Fh Frd Fr _ _ _ _ _ _ _ Fid]).
  destruct (raw_reader_holds_nothing _ _ Hraw Frd) as (Hh & Hh1 & Hraw1).
  destruct (Fid Hd) as [Hd1 _].
  rewrite E in Fr. simpl in Fr. rewrite Hh, Hh1, app_nil_r in Fh. simpl in Fh.
  set (w1 := snd (engine fuel never None [] w)) in *.
  split; [exact E|].
  assert (Hlen : length cs = length (arrived_by (clock w) (stdout_pipe w))).
  { assert (Em : map snd cs = map snd (arrived_by (clock w) (stdout_pipe w)))
      by congruence.
    apply (f_equal (@length byte)) in Em. now rewrite !length_map in Em. }
  assert (Hrest : stdout_pipe w1 = skipn (length cs) (stdout_pipe w)).
  { rewrite Fp, skipn_app, skipn_all, Nat.sub_diag. reflexivity. }
  destruct (engine_poll_ideal fuel [] w1 Hd1 Hraw1) as [E2 _].
  { rewrite Fp, length_app in Hf. lia. }
  rewrite E2, Hc, Hrest, Hlen, arrived_by_rest. reflexivity.
Qed.

(** The echoed line, drained twice. *)
Lemma read_buffered_twice_witness :
  fst (SubprocessConnection.read_buffered 10 echo_world)
    = Ok (map snd (arrived_by (clock echo_world) (stdout_pipe echo_world))) /\
  fst (SubprocessConnection.read_buffered 10
         (snd (SubprocessConnection.read_buffered 10 echo_world))) = Ok [].
Proof.
  apply (read_buffered_twice 10 echo_world); [reflexivity | reflexivity | simpl; lia].
Defined.

(** ** The constructor *)

Lemma dict_get_set_same (k : string) (v : pyvalue) (d : dict) :
  dict_get k (dict_set k v d) = Some v.
Proof.
  induction d as [|[k' v'] d IH]; simpl.
  - now rewrite String.eqb_refl.
  - destruct (String.eqb k k') eqn:E; simpl; now rewrite E.
Qed.

Lemma dict_get_set_other (k k' : string) (v : pyvalue) (d : dict) :
  k' <> k -> dict_get k' (dict_set k v d) = dict_get k' d.
Proof.
  intros Hk. induction d as [|[k0 v0] d IH]; simpl.
  - now rewrite (proj2 (String.eqb_neq k' k) Hk).
  - destruct (String.eqb k k0) eqn:E; simpl.
    + apply String.eqb_eq in E. subst k0.
      now rewrite (proj2 (String.eqb_neq k' k) Hk).
    + now rewrite IH.
Qed.

Lemma dict_set_keys (k : string) (v : pyvalue) (d : dict) :
  map fst (dict_set k v d)
  = if in_dec string_dec k (map fst d) then map fst d else map fst d ++ [k].
Proof.
  induction d as [|[k' v'] d IH]; simpl; [reflexivity|].
  destruct (String.eqb_spec k k') as [->|Hne].
  - simpl. destruct (string_dec k' k'); [reflexivity | congruence].
  - simpl. rewrite IH. destruct (string_dec k' k) as [E|Hn]; [congruence|].
    destruct (in_dec string_dec k (map fst d)); reflexivity.
Qed.

Lemma dict_set_nodup (k : string) (v : pyvalue) (d : dict) :
  NoDup (map fst d) -> NoDup (map fst (dict_set k v d)).
Proof.
  intros Hd. rewrite dict_set_keys.
  destruct (in_dec string_dec k (map fst d)) as [_|Hn]; [exact Hd|].
  apply NoDup_app; [exact Hd | repeat constructor; intros [] |].
  intros x Hx [E|[]]. subst x. contradiction.
Qed.

(** X16: the constructor hands [Popen] the caller's positional arguments
    and the caller's keyword arguments with [stdin] and [stdout] forced to
    [PIPE] and [text] forced to [False], whatever the caller gave for
    them; every other keyword argument arrives unchanged, no key appears
    twice, what [Popen] raises goes on to the caller, and the timeout of
    the new object is the one given, or one second. *)
Theorem constructor_forces_pipes (Process : Type)
    (Popen : list pyvalue -> dict -> outcome Process) (second : Z)
    (args : list pyvalue) (timeout : option Z) (kwargs : dict) :
  exists passed,
    init__ Popen second args timeout kwargs
    = match Popen args passed with
      | Ok process =>
          Ok (mkSubprocessFields process
                (match timeout with Some t => t | None => second end))
      | Raise e => Raise e
      | Blocked => Blocked
      | OutOfFuel => OutOfFuel
      end /\
    dict_get "stdin" passed = Some PIPE /\
    dict_get "stdout" passed = Some PIPE /\
    dict_get "text" passed = Some (PyBool false) /\
    (forall k, k <> "stdin"%string -> k <> "stdout"%string -> k <> "text"%string ->
       dict_get k passed = dict_get k kwargs) /\
    (NoDup (map fst kwargs) -> NoDup (map fst passed)).
Proof.
  exists (dict_set "text" (PyBool false)
            (dict_set "stdout" PIPE (dict_set "stdin" PIPE kwargs))).
  split; [|split; [|split; [|split; [|split]]]].
  - unfold init__. destruct (Popen args _); try reflexivity.
    destruct timeout; [reflexivity|]. now rewrite Z.mul_1_l.
  - rewrite !dict_get_set_other by discriminate. apply dict_get_set_same.
  - rewrite dict_get_set_other by discriminate. apply dict_get_set_same.
  - apply dict_get_set_same.
  - intros k H1 H2 H3. now rewrite !dict_get_set_other by assumption.
  - intros Hd. now do 3 apply dict_set_nodup.
Qed.

(** ** Returning as soon as satisfied *)

Lemma engine_ideal_prompt (fuel : nat) (stop : bytes -> bool) (end_time : Z) :
  forall (out : bytes) (w : World),
    delays w = [] ->
    stdout w = RawReader ->
    end_time - clock w <= select_limit w ->
    clock w < end_time ->
    (length (stdout_pipe w) < fuel)%nat ->
    exists cs,
      fst (engine fuel stop (Some end_time) out w) = Ok (out ++ map snd cs) /\
      stdout_pipe w = cs ++ stdout_pipe (snd (engine fuel stop (Some end_time) out w)) /\
      (stop (out ++ map snd cs) = true ->
       clock (snd (engine fuel stop (Some end_time) out w)) = latest (clock w) cs).
Proof.
  induction fuel as [|fuel IH]; intros out w Hd Hraw Hlim Hc Hf; [lia|].
  cbn [engine]. destruct (stop out) eqn:Hstop.
  { exists []. simpl. rewrite app_nil_r. auto. }
  assert (Hquit : forall (w' : World) (p : list (Z * byte)), stdout_pipe w' = p ->
            exists cs,
              fst (ret out w') = Ok (out ++ map snd cs) /\
              p = cs ++ stdout_pipe (snd (ret out w')) /\
              (stop (out ++ map snd cs) = true ->
               clock (snd (ret out w')) = latest (clock w) cs)).
  { intros w' p Hp'. exists []. simpl. rewrite app_nil_r.
    split; [reflexivity|]. split; [now rewrite Hp' | congruence]. }
  unfold await, bind, monotonic. rewrite (tick_ideal w Hd).
  rewrite (proj2 (Z.ltb_lt _ _) Hc).
  rewrite select_ideal by (simpl; auto).
  unfold select_wait, next_readable.
  cbn [stdout_pipe stdout_eof clock emit].
  destruct (stdout_pipe w) as [|[t b] rest] eqn:Hp.
  - destruct (stdout_eof w) as [t|] eqn:He; [|apply Hquit; exact Hp].
    destruct (t <=? clock w) eqn:E1; [|destruct (t <? clock w + (end_time - clock w)) eqn:E2];
      try (apply Hquit; exact Hp).
    all: rewrite stdout_read_ideal_raw by (simpl; auto);
      unfold raw_read, pipe_read;
      cbn [stdout_pipe stdout_eof clock emit set_clock]; rewrite Hp, He;
      cbn [truthy]; apply Hquit; reflexivity.
  - assert (Hstep : forall w1 : World,
              delays w1 = [] -> stdout w1 = RawReader ->
              select_limit w1 = select_limit w ->
              stdout_pipe w1 = (t, b) :: rest ->
              clock w <= clock w1 ->
              clock w1 < end_time -> t < end_time ->
              Z.max (clock w1) t = Z.max (clock w) t ->
              exists cs,
                fst ((data <- stdout_read 1 ;;
                      if truthy data then engine fuel stop (Some end_time) (out ++ data)
                      else ret out) w1) = Ok (out ++ map snd cs) /\
                (t, b) :: rest
                  = cs ++ stdout_pipe (snd ((data <- stdout_read 1 ;;
                      if truthy data then engine fuel stop (Some end_time) (out ++ data)
                      else ret out) w1)) /\
                (stop (out ++ map snd cs) = true ->
                 clock (snd ((data <- stdout_read 1 ;;
                      if truthy data then engine fuel stop (Some end_time) (out ++ data)
                      else ret out) w1)) = latest (clock w) cs)).
    { intros w1 Hd1 Hraw1 Hlim1 Hp1 Hge Hlt Hlt' Hmax. unfold bind.
      rewrite stdout_read_ideal_raw by assumption.
      unfold raw_read, pipe_read. rewrite Hp1. cbn [take_arrived].
      rewrite (proj2 (Z.leb_le t (Z.max (clock w1) t))) by lia.
      cbn [truthy].
      match goal with |- context [engine fuel stop _ _ ?w2] =>
        destruct (IH (out ++ [b]) w2) as (cs & E & P & C);
          [exact Hd1 | exact Hraw1 | simpl; lia | simpl; lia | simpl; simpl in Hf; lia |]
      end.
      exists ((t, b) :: cs). simpl. rewrite <- app_assoc in E, C. simpl in E, C.
      split; [exact E|]. split; [simpl in P; now rewrite <- P|].
      intros Hs. rewrite (C Hs). unfold latest. simpl. now rewrite Hmax. }
    destruct (t <=? clock w) eqn:E1; [|destruct (t <? clock w + (end_time - clock w)) eqn:E2].
    + apply Z.leb_le in E1. apply Hstep; simpl; auto; lia.
    + apply Z.leb_gt in E1. apply Z.ltb_lt in E2. apply Hstep; simpl; auto; lia.
    + apply Hquit. exact Hp.
Qed.

(** X17: on a connection whose output pipe is unbuffered, in a world where
    computing takes no time and with a positive timeout that the selector
    accepts, a call that got what it asked for returns the moment its
    last byte arrives (at once, when all of them were queued): the clock
    at the return of [read(n)] with [n] bytes, and of [read_until(ending)]
    with a result that ends with [ending], is the later of the time of
    the call and the arrivals of the bytes returned. *)
Theorem satisfied_reads_return_promptly (fuel : nat) (num_bytes : Z)
    (ending : bytes) (w : World) :
  stdout w = RawReader ->
  delays w = [] ->
  0 < _timeout w <= select_limit w ->
  (length (stdout_pipe w) < fuel)%nat ->
  (exists cs,
     fst (SubprocessConnection.read fuel num_bytes w) = Ok (map snd cs) /\
     stdout_pipe w
       = cs ++ stdout_pipe (snd (SubprocessConnection.read fuel num_bytes w)) /\
     (num_bytes <= Z.of_nat (length cs) ->
      clock (snd (SubprocessConnection.read fuel num_bytes w)) = latest (clock w) cs)) /\
  (exists cs,
     fst (SubprocessConnection.read_until fuel ending w) = Ok (map snd cs) /\
     stdout_pipe w
       = cs ++ stdout_pipe (snd (SubprocessConnection.read_until fuel ending w)) /\
     (endswith (map snd cs) ending = true ->
      clock (snd (SubprocessConnection.read_until fuel ending w)) = latest (clock w) cs)).
Proof.
  intros Hraw Hd [Ht Hlim] Hf. rewrite read_engine, read_until_engine.
  destruct (started_ideal w Hd) as (Hd' & Hc' & Hp' & Hck).
  assert (Hraw' : stdout (started w) = RawReader) by now rewrite started_stdout.
  assert (Hlim' : clock (tick w) + _timeout w - clock (started w)
                  <= select_limit (started w)).
  { assert (E : select_limit (started w) = select_limit w) by apply same_io_started.
    rewrite E. lia. }
  split.
  - destruct (engine_ideal_prompt fuel (length_reached num_bytes)
                (clock (tick w) + _timeout w) [] (started w) Hd' Hraw' Hlim')
      as (cs & E & P & C); [lia | now rewrite Hp'|].
    exists cs. rewrite Hp', Hc' in *. split; [exact E|]. split; [exact P|].
    intros Hn. apply C. unfold length_reached. simpl. rewrite length_map.
    now rewrite (proj2 (Z.ltb_ge _ _) Hn).
  - destruct (engine_ideal_prompt fuel (ending_found ending)
                (clock (tick w) + _timeout w) [] (started w) Hd' Hraw' Hlim')
      as (cs & E & P & C); [lia | now rewrite Hp'|].
    exists cs. rewrite Hp', Hc' in *. split; [exact E|]. split; [exact P|].
    intros He. apply C. exact He.
Qed.

(** The byte [a], queued, and the bytes [\n] and [b], which arrive five
    ticks after the call: the line is returned at their arrival. *)
Lemma satisfied_reads_return_promptly_witness :
  (exists cs,
     fst (SubprocessConnection.read 10 3 trailing_world) = Ok (map snd cs) /\
     stdout_pipe trailing_world
       = cs ++ stdout_pipe (snd (SubprocessConnection.read 10 3 trailing_world)) /\
     (3 <= Z.of_nat (length cs) ->
      clock (snd (SubprocessConnection.read 10 3 trailing_world))
        = latest (clock trailing_world) cs)) /\
  (exists cs,
     fst (SubprocessConnection.read_until 10 newline trailing_world) = Ok (map snd cs) /\
     stdout_pipe trailing_world
       = cs ++ stdout_pipe (snd (SubprocessConnection.read_until 10 newline trailing_world)) /\
     (endswith (map snd cs) newline = true ->
      clock (snd (SubprocessConnection.read_until 10 newline trailing_world))
        = latest (clock trailing_world) cs)).
Proof.
  apply (satisfied_reads_return_promptly 10 3 newline trailing_world);
    [reflexivity | reflexivity | vm_compute; split; [reflexivity | discriminate]
    | simpl; lia].
Defined.

(** ** Stopping at the ending *)

(** X18: with enough unrolling and a timeout that the selector accepts,
    [read_until(ending)] returns, and returns no more than it needs: no
    proper prefix of what it returns ends with [ending]; every read asks
    for one byte, right after a [select] that reported the stream
    readable; what it returns, followed by what the reader holds, is what
    the reader held followed by the bytes that left the pipe.  On a
    connection whose output pipe is unbuffered, what it returns is
    exactly what left the pipe: nothing past the ending is taken. *)
Theorem read_until_takes_what_it_returns (fuel : nat) (ending : bytes) (w : World) :
  (length (unread w) < fuel)%nat ->
  _timeout w <= select_limit w ->
  exists out cs evs,
    fst (SubprocessConnection.read_until fuel ending w) = Ok out /\
    stdout_pipe w
      = cs ++ stdout_pipe (snd (SubprocessConnection.read_until fuel ending w)) /\
    held (stdout w) ++ map snd cs
      = out ++ held (stdout (snd (SubprocessConnection.read_until fuel ending w))) /\
    (forall k, (k < length out)%nat -> endswith (firstn k out) ending = false) /\
    log (snd (SubprocessConnection.read_until fuel ending w))
      = log w ++ EvMonotonic (clock (tick w)) :: evs /\
    reads_guarded false evs = true /\
    (stdout w = RawReader ->
     out = map snd cs /\
     stdout (snd (SubprocessConnection.read_until fuel ending w)) = RawReader).
Proof.
  intros Hf Hlim. rewrite read_until_engine.
  destruct (engine_started fuel (ending_found ending) w)
    as (cs & taken & evs & [_ _ Frd _ Fm _ Ft _ _ _ _ _] & Hp & Hh & Hl & _ & Hr).
  cbv zeta in Hr.
  assert (Hlen : (length taken <= length (unread w))%nat).
  { unfold unread. rewrite Hp, map_app, app_assoc, Hh, !length_app. lia. }
  destruct (fst (engine _ _ _ _ _)) as [out|e| |] eqn:E; [|lia|contradiction|lia].
  subst out. exists taken, cs, evs.
  split; [reflexivity|]. split; [exact Hp|]. split; [exact Hh|].
  split; [|split; [exact Hl | split; [now apply andb_true_iff in Ft|]]].
  - intros k Hk. exact (Fm k Hk).
  - intros Hraw. rewrite started_stdout in Frd.
    destruct (raw_reader_holds_nothing _ _ Hraw Frd) as (H0 & H1 & H2).
    rewrite H0, H1, app_nil_r in Hh. simpl in Hh. auto.
Qed.

(** The byte [a], queued, and the bytes [\n] and [b], which arrive
    together: the line is returned and [b] stays in the pipe. *)
Lemma read_until_takes_what_it_returns_witness :
  exists out cs evs,
    fst (SubprocessConnection.read_until 10 newline trailing_world) = Ok out /\
    stdout_pipe trailing_world
      = cs ++ stdout_pipe (snd (SubprocessConnection.read_until 10 newline trailing_world)) /\
    held (stdout trailing_world) ++ map snd cs
      = out ++ held (stdout (snd (SubprocessConnection.read_until 10 newline trailing_world))) /\
    (forall k, (k < length out)%nat -> endswith (firstn k out) newline = false) /\
    log (snd (SubprocessConnection.read_until 10 newline trailing_world))
      = log trailing_world ++ EvMonotonic (clock (tick trailing_world)) :: evs /\
    reads_guarded false evs = true /\
    (stdout trailing_world = RawReader ->
     out = map snd cs /\
     stdout (snd (SubprocessConnection.read_until 10 newline trailing_world)) = RawReader).
Proof.
  apply (read_until_takes_what_it_returns 10 newline trailing_world);
    [simpl; lia | vm_compute; discriminate].
Defined.
